(** * service-webman: the webhook ingress, the relay and the task handlers

    A shallow embedding of [webman/webman.go] and [service/handler.go].

    The program talks to three outside parties: the HTTP network, the
    mesg task runtime and the Go standard library.  Each of them is an
    oracle here: a record (or class) of functions that says what the
    outside answers, so that every handler becomes a function from the
    oracles to the trace of effects it performs. *)

From Stdlib Require Import ZArith DecimalString.
From stdpp Require Import base option list strings gmap.

Set Warnings "-clear-no-such-hyp".

(** ** Go values *)

(** A Go [error]: [None] is [nil], [Some msg] an error whose [Error()]
    text is [msg]. *)
Definition error := option string.

(** What an [interface{}] holds after a JSON decode.  No handler looks
    inside a payload; [VNil] is the [nil] interface value. *)
#[warnings="-register-all"]
Inductive value :=
| VNil
| VBool (b : bool)
| VNumber (literal : string)
| VString (s : string)
| VArray (items : list value)
| VObject (fields : list (string * value)).

(** [fmt.Sprintf("%d", n)]. *)
Definition Sprintf_d (n : Z) : string := NilZero.string_of_int (Z.to_int n).

(** The standard-library and third-party calls whose results the handlers
    use: [json.Marshal], [json.NewDecoder(r).Decode], [time.Now().Unix()]
    and [uuid.NewV4().String()].  [inl msg] is a returned error. *)
Class Library := {
  json_Marshal : value → string + string;
  json_Decode : string → string + value;
  time_Now_Unix : Z;
  uuid_NewV4_String : string
}.

(** ** Package webman *)

Module webman.

(** [http.Response], as far as [Post] reads it. *)
Record Response := { StatusCode : Z; Body : string }.

(** [http.Client]: the answer of the network to the [k]-th call, either
    a transport error or a response; [None] is a call that never
    returns. *)
Record Client := {
  client_Post : nat → string → string → string → option (string + Response)
}.

Record Webman := { client : Client }.

(** What a call of [Post] hands back: the status code, the value left
    in [out], and the error. *)
Definition PostResult : Type := Z * value * error.

(** [func (w *Webman) Post(url, data, out) (statusCode int, err error)].
    [out] starts as the caller's [nil] body and is written by a
    successful decode only. *)
Definition Post `{Library} (w : Webman) (k : nat) (url : string) (data : value)
  : option PostResult :=
  let statusCode := 0%Z in
  match json_Marshal data with
  | inl err => Some (statusCode, VNil, Some err)
  | inr dataBytes =>
    match client_Post (client w) k url "application/json" dataBytes with
    | None => None
    | Some (inl err) => Some (statusCode, VNil, Some err)
    | Some (inr resp) =>
      match json_Decode (Body resp) with
      | inl err => Some (StatusCode resp, VNil, Some err)
      | inr out => Some (StatusCode resp, out, None)
      end
    end
  end.

Record errorResponseMessage := { Message : string }.
Record errorResponse := { Error : errorResponseMessage }.

(** The value [json.Marshal] sees for an [errorResponse]: the field
    tags [json:"error"] and [json:"message"] name the keys. *)
Definition errorResponse_value (e : errorResponse) : value :=
  VObject [("error", VObject [("message", VString (Message (Error e)))])].

(** [http.Request]: the handlers read the body only. *)
Record Request := { req_Body : string }.

(** [http.ResponseWriter]: the header map, the status line once written,
    the bytes handed to [Write], and what [Write] returns. *)
Record ResponseWriter := {
  Header : gmap string string;
  status : option Z;
  written : string;
  Write_err : error
}.

Definition Header_Set (key val : string) (w : ResponseWriter) : ResponseWriter :=
  {| Header := <[key := val]> (Header w); status := status w;
     written := written w; Write_err := Write_err w |}.

(** The first [WriteHeader] fixes the status. *)
Definition WriteHeader (code : Z) (w : ResponseWriter) : ResponseWriter :=
  match status w with
  | Some _ => w
  | None => {| Header := Header w; status := Some code;
               written := written w; Write_err := Write_err w |}
  end.

(** [Write] sends the status 200 when none was written before. *)
Definition Write (bytes : string) (w : ResponseWriter) : ResponseWriter * error :=
  let w := WriteHeader 200 w in
  ({| Header := Header w; status := status w;
      written := written w +:+ bytes; Write_err := Write_err w |}, Write_err w).

Definition StatusBadRequest : Z := 400.
Definition StatusAccepted : Z := 202.

(** [func (wh *Webhook) handler(w, r)]; [fn] is the registered callback,
    which returns its error together with the effects [E] it performed.
    The result is the response and the lines logged. *)
Definition handler `{Library} {E : Type} (fn : Request → error * E)
    (w : ResponseWriter) (r : Request) : ResponseWriter * E * list string :=
  match fn r with
  | (Some err, eff) =>
    let w := Header_Set "Content-Type" "application/json" w in
    let w := WriteHeader StatusBadRequest w in
    match json_Marshal (errorResponse_value {| Error := {| Message := err |} |}) with
    | inl err => (w, eff, ["error while encoding error response: " +:+ err])
    | inr bytes =>
      match Write bytes w with
      | (w, Some err) => (w, eff, ["error while sending http response: " +:+ err])
      | (w, None) => (w, eff, [])
      end
    end
  | (None, eff) => (WriteHeader StatusAccepted w, eff, [])
  end.

End webman.

(** ** The mesg task runtime *)

Module mesg.

(** [mesg.Request] for a task whose input has type [T]: [Get] is the
    result of decoding the task input, [Reply_err] what the runtime
    answers to a reply of a given kind. *)
Record Request (T D : Type) := {
  Get : string + T;
  Reply_err : string → D → error
}.
Arguments Get {T D} _.
Arguments Reply_err {T D} _ _ _.

End mesg.

(** ** Package service *)

Module service.

Record httpRequest := { hreq_URL : string; hreq_Body : value }.
Record httpSuccessResponse := { ok_StatusCode : string; ok_Body : value }.
Record httpErrorResponse := { err_Message : string }.
Record httpBatchRequest := { breq_Batch : list httpRequest }.
Record httpBatchResponseBody := {
  Successes : gmap string httpSuccessResponse;
  Errors : gmap string httpErrorResponse
}.
Record httpBatchResponse := { bresp_Batch : httpBatchResponseBody }.
Record response := {
  resp_URL : string;
  resp_StatusCode : string;
  resp_Body : value;
  resp_Error : error
}.
Record webhookResponse := { Date : Z; ID : string; wh_Body : value }.

(** The payload of a reply, one form per reply kind. *)
Inductive reply_data :=
| ErrorData (d : httpErrorResponse)
| SuccessData (d : httpSuccessResponse)
| BatchData (d : httpBatchResponse).

(** What a handler does to the outside, in the order it does it. *)
Inductive effect :=
| Emit (name : string) (data : webhookResponse)
| Call (url : string) (data : value)
| Recv (resp : response)
| Reply (kind : string) (data : reply_data)
| Log (line : string).

(** [type ServiceProvider interface]. *)
Class ServiceProvider (P : Type) := {
  EmitEvent : P → string → webhookResponse → error
}.

(** [type Application interface].  A relay call is an effect: [Post a k]
    is what the [k]-th call started by one handler run observes, [None]
    a call that never returns. *)
Class Application (A : Type) := {
  Post : A → nat → string → value → option webman.PostResult
}.

#[export] Instance Webman_Application `{Library} : Application webman.Webman :=
  {| Post := webman.Post |}.

Record Service (P A : Type) := { mesgService : P; webman : A }.
Arguments mesgService {P A} _.
Arguments webman {P A} _.

(** [func (s *Service) webhookHandler(req *http.Request) error]. *)
Definition webhookHandler `{Library} `{ServiceProvider P} {A}
    (s : Service P A) (req : webman.Request) : error * list effect :=
  match json_Decode (webman.req_Body req) with
  | inl _ => (Some "json data payload expected", [])
  | inr out =>
    let data := {| Date := time_Now_Unix; ID := uuid_NewV4_String; wh_Body := out |} in
    match EmitEvent (mesgService s) "onRequest" data with
    | Some err =>
      (None, [Emit "onRequest" data; Log ("error while emitting an event: " +:+ err)])
    | None => (None, [Emit "onRequest" data])
    end
  end.

(** *** Goroutines and the result channel *)

(** The body of a goroutine as the handlers see it: relay calls, sends
    on the result channel, then the return; [Block] is a goroutine
    stuck in a call that never returns. *)
Inductive proc :=
| DoCall (url : string) (data : value) (k : proc)
| Send (resp : response) (k : proc)
| Return
| Block.

(** [func (s *Service) doPOSTRequest(hreq httpRequest, responseC chan response)]. *)
Definition doPOSTRequest `{Application A} {P} (s : Service P A) (k : nat)
    (hreq : httpRequest) : proc :=
  let resp := {| resp_URL := hreq_URL hreq; resp_StatusCode := EmptyString;
                 resp_Body := VNil; resp_Error := None |} in
  DoCall (hreq_URL hreq) (hreq_Body hreq)
    match Post (webman s) k (hreq_URL hreq) (hreq_Body hreq) with
    | None => Block
    | Some (statusCode, out, Some err) =>
      Send {| resp_URL := resp_URL resp; resp_StatusCode := resp_StatusCode resp;
              resp_Body := out; resp_Error := Some err |} Return
    | Some (statusCode, out, None) =>
      Send {| resp_URL := resp_URL resp; resp_StatusCode := Sprintf_d statusCode;
              resp_Body := out; resp_Error := None |} Return
    end.

(** A direct call of a goroutine body with a channel of capacity [cap]
    holding [buf] and nobody receiving: a send on a full channel never
    completes.  The result is the calls made and the channel content. *)
Fixpoint run (cap : nat) (buf : list response) (p : proc)
  : option (list effect * list response) :=
  match p with
  | DoCall url data k =>
    '(es, buf') ← run cap buf k; Some (Call url data :: es, buf')
  | Send resp k =>
    if decide (length buf < cap) then run cap (buf ++ [resp]) k else None
  | Return => Some ([], buf)
  | Block => None
  end.

(** A started goroutine runs up to its next channel operation. *)
Fixpoint advance (p : proc) : list effect * proc :=
  match p with
  | DoCall url data k => let '(es, p') := advance k in (Call url data :: es, p')
  | _ => ([], p)
  end.

(** [go f(...)] for each body, in launch order. *)
Fixpoint launch (ps : list proc) : list effect * list proc :=
  match ps with
  | [] => ([], [])
  | p :: ps' =>
    let '(es, g) := advance p in
    let '(es', gs) := launch ps' in
    (es ++ es', g :: gs)
  end.

Definition ready (g : proc) : bool :=
  match g with Send _ _ => true | _ => false end.

(** A receive on the unbuffered channel pairs with the [c]-th goroutine
    that is waiting to send; that goroutine then runs on. *)
Fixpoint take (c : nat) (gs : list proc) : option (response * list effect * list proc) :=
  match gs with
  | [] => None
  | Send resp k :: gs' =>
    match c with
    | 0 => let '(es, g) := advance k in Some (resp, es, g :: gs')
    | S c' => '(r, es, gs'') ← take c' gs'; Some (r, es, Send resp k :: gs'')
    end
  | g :: gs' => '(r, es, gs'') ← take c gs'; Some (r, es, g :: gs'')
  end.

(** [resp := <-responseC]: with no goroutine waiting to send the receive
    never completes; otherwise the scheduler's [choice] picks one. *)
Definition receive (choice : nat) (gs : list proc)
  : option (response * list effect * list proc) :=
  let n := length (filter (λ g, ready g = true) gs) in
  if decide (n = 0) then None else take (choice mod n) gs.

(** *** The task handlers *)

Abbreviation Request T := (mesg.Request T reply_data).

(** [if err := req.Reply(kind, data); err != nil { log.Printf(...) }]. *)
Definition reply {T} (req : Request T) (kind : string) (data : reply_data)
  : list effect :=
  match mesg.Reply_err req kind data with
  | Some err => [Reply kind data; Log ("error while reply: " +:+ err)]
  | None => [Reply kind data]
  end.

(** [func (s *Service) executeHandler(req *mesg.Request)]; [None] is a
    handler that never returns. *)
Definition executeHandler `{Application A} {P} (s : Service P A)
    (req : Request httpRequest) : option (list effect) :=
  match mesg.Get req with
  | inl err =>
    Some (reply req "error"
            (ErrorData {| err_Message := "err while decoding input data: " +:+ err |}))
  | inr hreq =>
    '(calls, responseC) ← run 1 [] (doPOSTRequest s 0 hreq);
    match responseC with
    | [] => None
    | resp :: _ =>
      match resp_Error resp with
      | Some err =>
        Some (calls ++ Recv resp ::
              reply req "error"
                (ErrorData {| err_Message :=
                   "err while performing the post request: " +:+ err |}))
      | None =>
        Some (calls ++ Recv resp ::
              reply req "success"
                (SuccessData {| ok_StatusCode := resp_StatusCode resp;
                                ok_Body := resp_Body resp |}))
      end
    end
  end.

(** The body of the fan-in loop after the receive. *)
Definition store (resp : response) (hresp : httpBatchResponseBody)
  : httpBatchResponseBody :=
  match resp_Error resp with
  | Some err =>
    {| Successes := Successes hresp;
       Errors := <[resp_URL resp := {| err_Message := err |}]> (Errors hresp) |}
  | None =>
    {| Successes := <[resp_URL resp := {| ok_StatusCode := resp_StatusCode resp;
                                          ok_Body := resp_Body resp |}]>
                      (Successes hresp);
       Errors := Errors hresp |}
  end.

(** [for i := 0; i < totalReqs; i++ { resp := <-responseC; ... }] with
    [n] iterations left; [sched] gives the scheduler's choice at each
    receive (0 once it is used up). *)
Fixpoint fanin (n : nat) (sched : list nat) (gs : list proc)
    (hresp : httpBatchResponseBody)
  : option (list effect * list proc * httpBatchResponseBody) :=
  match n with
  | 0 => Some ([], gs, hresp)
  | S n' =>
    '(resp, calls, gs') ← receive (hd 0 sched) gs;
    '(es, gs'', hresp') ← fanin n' (tl sched) gs' (store resp hresp);
    Some (Recv resp :: calls ++ es, gs'', hresp')
  end.

(** [func (s *Service) batchExecuteHandler(req *mesg.Request)].  The
    result also holds the goroutines as they are when the handler
    returns. *)
Definition batchExecuteHandler `{Application A} {P} (s : Service P A)
    (req : Request httpBatchRequest) (sched : list nat)
  : option (list effect * list proc) :=
  match mesg.Get req with
  | inl err =>
    Some (reply req "error"
            (ErrorData {| err_Message :=
               "err while decoding batch input data: " +:+ err |}), [])
  | inr hreq =>
    let '(calls, gs) := launch (imap (doPOSTRequest s) (breq_Batch hreq)) in
    let hresp := {| Successes := ∅; Errors := ∅ |} in
    let totalReqs := length (breq_Batch hreq) in
    '(es, gs', hresp') ← fanin totalReqs sched gs hresp;
    Some (calls ++ es ++ reply req "batch" (BatchData {| bresp_Batch := hresp' |}), gs')
  end.

(** *** Projections of a trace *)

Definition calls_of (es : list effect) : list (string * value) :=
  omap (λ e, match e with Call u d => Some (u, d) | _ => None end) es.
Definition received_of (es : list effect) : list response :=
  omap (λ e, match e with Recv r => Some r | _ => None end) es.
Definition replies_of (es : list effect) : list (string * reply_data) :=
  omap (λ e, match e with Reply k d => Some (k, d) | _ => None end) es.
Definition emitted_of (es : list effect) : list (string * webhookResponse) :=
  omap (λ e, match e with Emit n d => Some (n, d) | _ => None end) es.

End service.

(** ** The test doubles of [service_test.go] and a sample world *)

Module test.
Import service.

(** [testWebman]: [Post] returns [0, nil]. *)
Record testWebman := { }.
#[export] Instance testWebman_Application : Application testWebman :=
  {| Post := λ _ _ _ _, Some (0%Z, VNil, None) |}.

(** [testServiceProvider]: [EmitEvent] returns [nil]. *)
Record testServiceProvider := { }.
#[export] Instance testServiceProvider_ServiceProvider
  : ServiceProvider testServiceProvider := {| EmitEvent := λ _ _ _, None |}.

(** A provider whose [EmitEvent] fails. *)
Record failingProvider := { }.
#[export] Instance failingProvider_ServiceProvider
  : ServiceProvider failingProvider := {| EmitEvent := λ _ _ _, Some "closed connection" |}.

(** An application scripted call by call: the [k]-th call gets the
    [k]-th entry, calls past the script never return. *)
Record scripted := { script : list (option webman.PostResult) }.
#[export] Instance scripted_Application : Application scripted :=
  {| Post := λ a k _ _, mjoin (script a !! k) |}.

Definition double : Ascii.ascii := Ascii.ascii_of_nat 34.

(** A library in which the body [{}] decodes to the empty object and
    nothing else decodes, and which marshals the error response the way
    [encoding/json] does for a message without special characters. *)
#[export] Instance sample_Library : Library := {|
  json_Marshal v :=
    match v with
    | VObject [(k1, VObject [(k2, VString msg)])] =>
      inr ("{" +:+ String double (k1 +:+ String double (":{" +:+
           String double (k2 +:+ String double (":" +:+
           String double (msg +:+ String double "}}"))))))
    | VObject [] => inr "{}"
    | _ => inl "json: unsupported value"
    end;
  json_Decode b := if decide (b = "{}") then inr (VObject []) else inl "invalid character";
  time_Now_Unix := 1530000000;
  uuid_NewV4_String := "6ba7b810-9dad-11d1-80b4-00c04fd430c8"
|}.

(** Sample relay answers, requests and services. *)
Definition answer_ok : webman.PostResult := (200%Z, VObject [], None).
Definition answer_refused : webman.PostResult :=
  (0%Z, VNil, Some "dial tcp: connection refused").

Definition to_a : httpRequest := {| hreq_URL := "http://a"; hreq_Body := VNil |}.
Definition to_b : httpRequest := {| hreq_URL := "http://b"; hreq_Body := VNil |}.

(** A service whose first relay call succeeds and whose second fails. *)
Definition ok_then_refused : Service testServiceProvider scripted :=
  {| mesgService := Build_testServiceProvider;
     webman := {| script := [Some answer_ok; Some answer_refused] |} |}.

(** The service of [service_test.go]. *)
Definition test_service : Service testServiceProvider testWebman :=
  {| mesgService := Build_testServiceProvider; webman := Build_testWebman |}.

Definition failing_service : Service failingProvider testWebman :=
  {| mesgService := Build_failingProvider; webman := Build_testWebman |}.

(** A task with the given decoded input whose replies are delivered. *)
Definition task {T} (input : string + T) : Request T :=
  {| mesg.Get := input; mesg.Reply_err := λ _ _, None |}.

(** A network that answers every call with status 404 and body [{}]. *)
Definition not_found : webman.Webman :=
  {| webman.client :=
       {| webman.client_Post := λ _ _ _ _,
            Some (inr {| webman.StatusCode := 404; webman.Body := "{}" |}) |} |}.

Definition relay_service : Service testServiceProvider webman.Webman :=
  {| mesgService := Build_testServiceProvider; webman := not_found |}.

End test.

(** ** Vocabulary of the statements *)

Module spec.
Import service.

(** The responses a goroutine body sends, in program order. *)
Fixpoint sent (p : proc) : list response :=
  match p with
  | DoCall _ _ k => sent k
  | Send resp k => resp :: sent k
  | Return | Block => []
  end.

(** The relay outcome that belongs to a returned [Post]. *)
Definition outcome (url : string) (res : webman.PostResult) : response :=
  match res with
  | (_, out, Some err) =>
    {| resp_URL := url; resp_StatusCode := EmptyString;
       resp_Body := out; resp_Error := Some err |}
  | (statusCode, out, None) =>
    {| resp_URL := url; resp_StatusCode := Sprintf_d statusCode;
       resp_Body := out; resp_Error := None |}
  end.

(** The relay calls of a batch: URL, body and what [Post] answers. *)
Definition relay_calls `{Application A} {P} (s : Service P A)
    (batch : list httpRequest) : list (string * value * option webman.PostResult) :=
  imap (λ i h, (hreq_URL h, hreq_Body h,
                Post (webman s) i (hreq_URL h) (hreq_Body h))) batch.

(** A goroutine of the batch once its relay call is over. *)
Definition after_call (c : string * value * option webman.PostResult) : proc :=
  match c.2 with
  | None => Block
  | Some res => Send (outcome c.1.1 res) Return
  end.

(** The outcomes of the calls that return, in launch order. *)
Definition outcomes `{Application A} {P} (s : Service P A)
    (batch : list httpRequest) : list response :=
  omap (λ c, outcome c.1.1 <$> c.2) (relay_calls s batch).

(** Every relay call of the batch returns. *)
Definition all_return `{Application A} {P} (s : Service P A)
    (batch : list httpRequest) : Prop :=
  ∀ i h, batch !! i = Some h →
    is_Some (Post (webman s) i (hreq_URL h) (hreq_Body h)).

(** The batch result after the outcomes [rs] arrived in this order. *)
Definition collect (rs : list response) : httpBatchResponseBody :=
  foldl (λ hresp resp, store resp hresp) {| Successes := ∅; Errors := ∅ |} rs.

Definition is_error (r : response) : bool := bool_decide (resp_Error r ≠ None).

Definition successes_of (rs : list response) : list response :=
  filter (λ r, is_error r = false) rs.
Definition errors_of (rs : list response) : list response :=
  filter (λ r, is_error r = true) rs.

(** Calls to one URL never disagree on whether they fail. *)
Definition consistent (rs : list response) : Prop :=
  ∀ r1 r2, r1 ∈ rs → r2 ∈ rs → resp_URL r1 = resp_URL r2 →
    is_error r1 = is_error r2.

(** The distinct URLs of a batch. *)
Definition distinct_urls (batch : list httpRequest) : gset string :=
  list_to_set (hreq_URL <$> batch).

(** The response writer the server hands to the handler. *)
Definition NewResponseWriter (werr : error) : webman.ResponseWriter :=
  {| webman.Header := ∅; webman.status := None;
     webman.written := EmptyString; webman.Write_err := werr |}.

(** A goroutine of the batch after its launch: at most one send is left. *)
Definition one_shot (g : proc) : Prop :=
  match g with
  | Send _ Return | Return | Block => True
  | _ => False
  end.

(** The sends the waiting goroutines offer. *)
Definition pending (gs : list proc) : list response :=
  omap (λ g, match g with Send r _ => Some r | _ => None end) gs.

End spec.

(** ** Construction and lifecycle of package webman *)

Module webman_setup.

(** An [io.Writer] a logger writes to. *)
Inductive Writer := os_Stdout | ioutil_Discard | other_Writer (id : nat).

(** [log.Logger] as [log.New(out, prefix, flag)] builds it. *)
Record Logger := { out : Writer; prefix : string; flag : Z }.

(** [log.LstdFlags = Ldate | Ltime]. *)
Definition LstdFlags : Z := 3.

(** [time.Second], in nanoseconds. *)
Definition Second : Z := 1000000000.

(** [http.Client], as far as [New] sets it. *)
Record http_Client := { Timeout : Z }.

(** [graceful.Server] around its [http.Server]: the grace period, the
    listen address and the one route of the router.  [serves] tells
    whether the server comes to serve; only then does it close its stop
    channel after it is told to stop. *)
Record Server := {
  srv_Timeout : Z;
  Addr : string;
  route_path : string;
  route_methods : list string;
  serves : bool
}.

(** How the server's [ListenAndServe] goes: the listen fails and the error
    is returned at once, or the server serves until it is stopped. *)
Inductive serving :=
| ListenFails (err : string)
| Serves.

(** [type Webhook struct]; [F] is the type of the callback [fn], the
    pointer back to the [Webman] is left out. *)
Record Webhook (F : Type) := { server : option Server; fn : F }.
Arguments server {F} _.
Arguments fn {F} _.

(** [type Webman struct]; a nil pointer field is [None]. *)
Record Webman (F : Type) := {
  timeout : Z;
  client : option http_Client;
  webhook : option (Webhook F);
  log : option Logger
}.
Arguments timeout {F} _.
Arguments client {F} _.
Arguments webhook {F} _.
Arguments log {F} _.

(** [type Option func(w *Webman)]. *)
Definition Option (F : Type) : Type := Webman F → Webman F.

(** [func TimeoutOption(d time.Duration) Option]. *)
Definition TimeoutOption {F} (d : Z) : Option F :=
  λ w, {| timeout := d; client := client w; webhook := webhook w; log := log w |}.

(** [func LoggerOption(l *log.Logger) Option]. *)
Definition LoggerOption {F} (l : option Logger) : Option F :=
  λ w, {| timeout := timeout w; client := client w; webhook := webhook w; log := l |}.

(** [func New(options ...Option)] of package webman: [inl] is the error
    returned with a nil [Webman]. *)
Definition New {F} (options : list (Option F)) : string + Webman F :=
  let w := {| timeout := Second * 10; client := None; webhook := None; log := None |} in
  let w := foldl (λ w option, option w) w options in
  match log w with
  | None => inl "no logger set"
  | Some _ =>
    inr {| timeout := timeout w; client := Some {| Timeout := timeout w |};
           webhook := webhook w; log := log w |}
  end.

(** An option that leaves the field [f] alone. *)
Definition keeps {F X} (f : Webman F → X) (option : Option F) : Prop :=
  ∀ w, f (option w) = f w.

(** How a call ends: it returns, it never returns, or it panics on a nil
    pointer. *)
Inductive ending (R : Type) :=
| Returned (r : R)
| Blocked
| Panicked.
Arguments Returned {R} _.
Arguments Blocked {R}.
Arguments Panicked {R}.

(** [func (w *Webman) StartWebhook(endpoint, listenAddr, fn) error];
    [ListenAndServe] is how the server's [ListenAndServe] goes.  The
    result is the [Webman] as the call leaves it, the lines logged and the
    ending, [Blocked] while the server serves. *)
Definition StartWebhook {F} (w : Webman F) (endpoint listenAddr : string) (fn : F)
    (ListenAndServe : serving) : Webman F * list string * ending error :=
  let server := {| srv_Timeout := timeout w; Addr := listenAddr;
                   route_path := endpoint; route_methods := ["POST"];
                   serves := match log w, ListenAndServe with
                             | Some _, Serves => true
                             | _, _ => false
                             end |} in
  let w := {| timeout := timeout w; client := client w;
              webhook := Some {| server := Some server; fn := fn |};
              log := log w |} in
  match log w with
  | None => (w, [], Panicked)
  | Some _ =>
    (w, ["webhook server started at: " +:+ listenAddr +:+ ":"],
     match ListenAndServe with
     | ListenFails err => Returned (Some err)
     | Serves => Blocked
     end)
  end.

(** [func (w *Webman) WebhookAddr() string]. *)
Definition WebhookAddr {F} (w : Webman F) : ending string :=
  match webhook w with
  | None => Panicked
  | Some wh =>
    match server wh with
    | Some srv => Returned (Addr srv)
    | None => Returned EmptyString
    end
  end.

(** [func (w *Webman) ShutdownWebhook()]: [Stop] is called with the
    [Webman]'s timeout, then the receive on the server's stop channel
    waits until the server has stopped, for ever when it never served.
    The result lists the grace periods of the [Stop] calls of a call that
    returns. *)
Definition ShutdownWebhook {F} (w : Webman F) : ending (list Z) :=
  match webhook w with
  | None => Returned []
  | Some wh =>
    match server wh with
    | Some srv => if serves srv then Returned [timeout w] else Blocked
    | None => Panicked
    end
  end.

End webman_setup.

(** ** Construction and lifecycle of package service *)

Module service_setup.
Import webman_setup.

(** The value in the [webman Application] field: one injected by
    [applicationServiceOption] or the [*webman.Webman] that [New] builds. *)
Inductive application (A F : Type) :=
| Injected (a : A)
| Own (w : Webman F).
Arguments Injected {A F} _.
Arguments Own {A F} _.

(** [type Service struct], without the error channel; a nil field is
    [None]. *)
Record Service (P A F : Type) := {
  mesgService : option P;
  webman : option (application A F);
  log : option Logger;
  logOutput : Writer;
  webhookEndpoint : string;
  webhookAddr : string
}.
Arguments mesgService {P A F} _.
Arguments webman {P A F} _.
Arguments log {P A F} _.
Arguments logOutput {P A F} _.
Arguments webhookEndpoint {P A F} _.
Arguments webhookAddr {P A F} _.

(** [type Option func(s *Service)]. *)
Definition Option (P A F : Type) : Type := Service P A F → Service P A F.

(** [func WebhookOption(endpoint, addr string) Option]. *)
Definition WebhookOption {P A F} (endpoint addr : string) : Option P A F :=
  λ s, {| mesgService := mesgService s; webman := webman s; log := log s;
          logOutput := logOutput s;
          webhookEndpoint := endpoint; webhookAddr := addr |}.

(** [func LogOutputOption(out io.Writer) Option]. *)
Definition LogOutputOption {P A F} (out : Writer) : Option P A F :=
  λ s, {| mesgService := mesgService s; webman := webman s; log := log s;
          logOutput := out;
          webhookEndpoint := webhookEndpoint s; webhookAddr := webhookAddr s |}.

(** [func serviceProviderOption(provider ServiceProvider) Option]. *)
Definition serviceProviderOption {P A F} (provider : option P) : Option P A F :=
  λ s, {| mesgService := provider; webman := webman s; log := log s;
          logOutput := logOutput s;
          webhookEndpoint := webhookEndpoint s; webhookAddr := webhookAddr s |}.

(** [func applicationServiceOption(app Application) Option]. *)
Definition applicationServiceOption {P A F} (app : option A) : Option P A F :=
  λ s, {| mesgService := mesgService s; webman := Injected <$> app; log := log s;
          logOutput := logOutput s;
          webhookEndpoint := webhookEndpoint s; webhookAddr := webhookAddr s |}.

(** [func New(options ...Option)] of package service, which returns a
    [Service] pointer and an error; [GetService] is what
    [mesg.GetService()] returns. *)
Definition New {P A F} (options : list (Option P A F)) (GetService : option P * error)
    : option (Service P A F) * error :=
  let s := {| mesgService := None; webman := None; log := None;
              logOutput := os_Stdout;
              webhookEndpoint := EmptyString; webhookAddr := EmptyString |} in
  let s := foldl (λ s option, option s) s options in
  let s := {| mesgService := mesgService s; webman := webman s;
              log := Some {| out := logOutput s; prefix := "service-webman: ";
                             flag := LstdFlags |};
              logOutput := logOutput s;
              webhookEndpoint := webhookEndpoint s; webhookAddr := webhookAddr s |} in
  if decide (webhookAddr s = EmptyString ∨ webhookEndpoint s = EmptyString) then
    (None, Some "webhook configurations not set")
  else
    let with_webman (app : application A F) :=
      let s := {| mesgService := mesgService s; webman := Some app; log := log s;
                  logOutput := logOutput s;
                  webhookEndpoint := webhookEndpoint s; webhookAddr := webhookAddr s |} in
      match mesgService s with
      | None =>
        ( Some {| mesgService := GetService.1; webman := webman s; log := log s;
                  logOutput := logOutput s;
                  webhookEndpoint := webhookEndpoint s; webhookAddr := webhookAddr s |},
          GetService.2 )
      | Some _ => (Some s, None)
      end in
    match webman s with
    | None =>
      match webman_setup.New [LoggerOption (log s)] with
      | inl err => (None, Some err)
      | inr w => with_webman (Own w)
      end
    | Some app => with_webman app
    end.

(** What [Start] and [Close] do to the two collaborators. *)
Inductive lifecycle :=
| ListenTasks (tasks : list string)
| StartWebhook (endpoint addr : string)
| ShutdownWebhook
| CloseProvider.

(** [func (s *Service) listenTasks()] and [func (s *Service) startWebhook()]:
    the call made and the errors sent on [errC]; the argument is what the
    collaborator's call returns, [None] while it does not return. *)
Definition listenTasks (ListenTasks_ret : option error) : lifecycle * list string :=
  (ListenTasks ["execute"; "batchExecute"],
   match ListenTasks_ret with Some (Some err) => [err] | _ => [] end).

Definition startWebhook {P A F} (s : Service P A F) (StartWebhook_ret : option error)
    : lifecycle * list string :=
  (StartWebhook (webhookEndpoint s) (webhookAddr s),
   match StartWebhook_ret with Some (Some err) => [err] | _ => [] end).

(** [func (s *Service) Close() error]: [ShutdownWebhook_end] is how the
    application's [ShutdownWebhook] ends and [Close_ret] what the
    provider's [Close] returns, [None] when it does not return.  The
    result is the calls begun, in order, and the ending; a call on a nil
    field panics. *)
Definition Close {P A F} (s : Service P A F) (ShutdownWebhook_end : ending unit)
    (Close_ret : option error) : list lifecycle * ending error :=
  match webman s with
  | None => ([], Panicked)
  | Some _ =>
    match ShutdownWebhook_end with
    | Returned _ =>
      match mesgService s with
      | None => ([ShutdownWebhook], Panicked)
      | Some _ =>
        match Close_ret with
        | Some _ => ([ShutdownWebhook; CloseProvider], Returned None)
        | None => ([ShutdownWebhook; CloseProvider], Blocked)
        end
      end
    | Blocked => ([ShutdownWebhook], Blocked)
    | Panicked => ([ShutdownWebhook], Panicked)
    end
  end.

(** [func (s *Service) Start() error]: both goroutines are started, the
    receive on the unbuffered [errC] pairs with one waiting sender, picked
    by [choice], then the service is closed and the error returned.  The
    result holds the calls of the two goroutines, which are not ordered
    against the rest, the calls of [Close] in order, and the ending. *)
Definition Start {P A F} (s : Service P A F) (ListenTasks_ret StartWebhook_ret : option error)
    (ShutdownWebhook_end : ending unit) (Close_ret : option error) (choice : nat)
  : list lifecycle * list lifecycle * ending error :=
  match mesgService s, webman s with
  | Some _, Some _ =>
    let '(call1, sends1) := listenTasks ListenTasks_ret in
    let '(call2, sends2) := startWebhook s StartWebhook_ret in
    let waiting := sends1 ++ sends2 in
    match waiting !! (choice mod length waiting) with
    | None => ([call1; call2], [], Blocked)
    | Some err =>
      let '(calls, e) := Close s ShutdownWebhook_end Close_ret in
      ([call1; call2], calls,
       match e with
       | Returned _ => Returned (Some err)
       | Blocked => Blocked
       | Panicked => Panicked
       end)
    end
  | _, _ => ([], [], Panicked)
  end.

(** How a call ends, whatever it returns. *)
Definition ended {R} (e : ending R) : ending unit :=
  match e with
  | Returned _ => Returned tt
  | Blocked => Blocked
  | Panicked => Panicked
  end.

(** The service as the options leave it, before [New] checks it. *)
Definition configured {P A F} (options : list (Option P A F)) : Service P A F :=
  foldl (λ s option, option s)
    {| mesgService := None; webman := None; log := None;
       logOutput := os_Stdout;
       webhookEndpoint := EmptyString; webhookAddr := EmptyString |} options.

(** An option that leaves the field [f] alone. *)
Definition keeps {P A F X} (f : Service P A F → X) (option : Option P A F) : Prop :=
  ∀ s, f (option s) = f s.

End service_setup.

(** ** More readings of a trace and of an arrival order *)

Module observe.
Import service spec.

Definition logs_of (es : list effect) : list string :=
  omap (λ e, match e with Log line => Some line | _ => None end) es.

(** The entry the loop writes for a success outcome. *)
Definition success_entry (r : response) : httpSuccessResponse :=
  {| ok_StatusCode := resp_StatusCode r; ok_Body := resp_Body r |}.

(** The entry the loop writes for an error outcome. *)
Definition error_entry (r : response) : option httpErrorResponse :=
  (λ err, {| err_Message := err |}) <$> resp_Error r.

(** The batch handler between the decoding of its input and its reply:
    the trace so far, the goroutines and the maps. *)
Definition batch_run `{Application A} {P} (s : Service P A)
    (batch : list httpRequest) (sched : list nat)
  : option (list effect * list proc * httpBatchResponseBody) :=
  let '(calls, gs) := launch (imap (doPOSTRequest s) batch) in
  '(es, gs', hresp') ← fanin (length batch) sched gs {| Successes := ∅; Errors := ∅ |};
  Some (calls ++ es, gs', hresp').

(** The last outcome for [url] among [rs]. *)
Definition last_for (url : string) (rs : list response) : option response :=
  last (filter (λ r, resp_URL r = url) rs).

End observe.

(** ** JSON texts and the stream decoder *)

Module json.
Import Stdlib.Strings.Ascii.

Definition quote : Ascii.ascii := Ascii.ascii_of_nat 34.
Definition backslash : Ascii.ascii := Ascii.ascii_of_nat 92.

Definition is_space (c : Ascii.ascii) : bool :=
  let n := Ascii.nat_of_ascii c in
  Nat.eqb n 32 || Nat.eqb n 9 || Nat.eqb n 10 || Nat.eqb n 13.

Definition is_digit (c : Ascii.ascii) : bool :=
  let n := Ascii.nat_of_ascii c in Nat.leb 48 n && Nat.leb n 57.

Definition is_hex (c : Ascii.ascii) : bool :=
  let n := Ascii.nat_of_ascii c in
  is_digit c || (Nat.leb 65 n && Nat.leb n 70) || (Nat.leb 97 n && Nat.leb n 102).

Definition is_control (c : Ascii.ascii) : bool := Nat.ltb (Ascii.nat_of_ascii c) 32.

(** The characters that may follow a backslash, [u] apart. *)
Definition is_escape (c : Ascii.ascii) : bool :=
  Ascii.eqb c quote || Ascii.eqb c backslash || Ascii.eqb c "/"%char ||
  Ascii.eqb c "b"%char || Ascii.eqb c "f"%char || Ascii.eqb c "n"%char ||
  Ascii.eqb c "r"%char || Ascii.eqb c "t"%char.

Fixpoint skip_space (s : string) : string :=
  match s with
  | String c s' => if is_space c then skip_space s' else s
  | EmptyString => s
  end.

(** The longest prefix of digits and what follows it. *)
Fixpoint digits (s : string) : string * string :=
  match s with
  | String c s' =>
    if is_digit c then let '(ds, rest) := digits s' in (String c ds, rest)
    else (EmptyString, s)
  | EmptyString => (EmptyString, s)
  end.

(** [strip p s] is what follows the prefix [p] of [s]. *)
Fixpoint strip (p s : string) : option string :=
  match p, s with
  | EmptyString, _ => Some s
  | String a p', String b s' => if Ascii.eqb a b then strip p' s' else None
  | String _ _, EmptyString => None
  end.

(** A string after its opening quote: the text up to the closing quote,
    as written, and what follows the closing quote. *)
Fixpoint string_body (s : string) : option (string * string) :=
  match s with
  | EmptyString => None
  | String c s1 =>
    if Ascii.eqb c quote then Some (EmptyString, s1)
    else if Ascii.eqb c backslash then
      match s1 with
      | String e s2 =>
        if is_escape e then
          '(body, rest) ← string_body s2; Some (String c (String e body), rest)
        else if Ascii.eqb e "u"%char then
          match s2 with
          | String h1 (String h2 (String h3 (String h4 s3))) =>
            if is_hex h1 && is_hex h2 && is_hex h3 && is_hex h4 then
              '(body, rest) ← string_body s3;
              Some (String c (String e (String h1 (String h2 (String h3
                      (String h4 body))))), rest)
            else None
          | _ => None
          end
        else None
      | EmptyString => None
      end
    else if is_control c then None
    else '(body, rest) ← string_body s1; Some (String c body, rest)
  end.

(** A number: its literal and what follows it. *)
Definition number (s : string) : option (string * string) :=
  let '(sign, s1) :=
    match s with
    | String c r => if Ascii.eqb c "-"%char then ("-", r) else (EmptyString, s)
    | EmptyString => (EmptyString, s)
    end in
  '(int, s2) ←
    match s1 with
    | String c r =>
      if Ascii.eqb c "0"%char then Some ("0", r)
      else if is_digit c then Some (digits s1)
      else None
    | EmptyString => None
    end;
  '(frac, s3) ←
    match s2 with
    | String c r =>
      if Ascii.eqb c "."%char then
        match digits r with
        | (EmptyString, _) => None
        | (ds, rest) => Some (String c ds, rest)
        end
      else Some (EmptyString, s2)
    | EmptyString => Some (EmptyString, s2)
    end;
  '(exp, s4) ←
    match s3 with
    | String c r =>
      if Ascii.eqb c "e"%char || Ascii.eqb c "E"%char then
        let '(esign, r1) :=
          match r with
          | String d r' =>
            if Ascii.eqb d "+"%char || Ascii.eqb d "-"%char
            then (String d EmptyString, r') else (EmptyString, r)
          | EmptyString => (EmptyString, r)
          end in
        match digits r1 with
        | (EmptyString, _) => None
        | (ds, rest) => Some (String c (esign +:+ ds), rest)
        end
      else Some (EmptyString, s3)
    | EmptyString => Some (EmptyString, s3)
    end;
  Some (sign +:+ int +:+ frac +:+ exp, s4).

(** The JSON value at the start of [s] and what follows it; [fuel]
    bounds the number of values and of array and object entries read. *)
Fixpoint value_at (fuel : nat) (s : string) : option (value * string) :=
  match fuel with
  | 0 => None
  | S fuel =>
    match s with
    | EmptyString => None
    | String c s1 =>
      if Ascii.eqb c "{"%char then
        match skip_space s1 with
        | EmptyString => None
        | String c2 s2 =>
          if Ascii.eqb c2 "}"%char then Some (VObject [], s2)
          else '(fields, rest) ← members fuel s1; Some (VObject fields, rest)
        end
      else if Ascii.eqb c "["%char then
        match skip_space s1 with
        | EmptyString => None
        | String c2 s2 =>
          if Ascii.eqb c2 "]"%char then Some (VArray [], s2)
          else '(items, rest) ← elements fuel s1; Some (VArray items, rest)
        end
      else if Ascii.eqb c quote then
        '(str, rest) ← string_body s1; Some (VString str, rest)
      else if is_digit c || Ascii.eqb c "-"%char then
        '(literal, rest) ← number s; Some (VNumber literal, rest)
      else
        match strip "true" s, strip "false" s, strip "null" s with
        | Some rest, _, _ => Some (VBool true, rest)
        | _, Some rest, _ => Some (VBool false, rest)
        | _, _, Some rest => Some (VNil, rest)
        | _, _, _ => None
        end
    end
  end
with elements (fuel : nat) (s : string) : option (list value * string) :=
  match fuel with
  | 0 => None
  | S fuel =>
    '(v, r) ← value_at fuel (skip_space s);
    match skip_space r with
    | EmptyString => None
    | String c r1 =>
      if Ascii.eqb c ","%char then '(vs, r2) ← elements fuel r1; Some (v :: vs, r2)
      else if Ascii.eqb c "]"%char then Some ([v], r1)
      else None
    end
  end
with members (fuel : nat) (s : string) : option (list (string * value) * string) :=
  match fuel with
  | 0 => None
  | S fuel =>
    match skip_space s with
    | EmptyString => None
    | String q s1 =>
      if Ascii.eqb q quote then
        '(key, r) ← string_body s1;
        match skip_space r with
        | EmptyString => None
        | String c r1 =>
          if Ascii.eqb c ":"%char then
            '(v, r2) ← value_at fuel (skip_space r1);
            match skip_space r2 with
            | EmptyString => None
            | String d r3 =>
              if Ascii.eqb d ","%char then
                '(fields, r4) ← members fuel r3; Some ((key, v) :: fields, r4)
              else if Ascii.eqb d "}"%char then Some ([(key, v)], r3)
              else None
            end
          else None
        end
      else None
    end
  end.

(** Every value and every entry takes at least one character. *)
Definition fuel_for (s : string) : nat := 2 * String.length s + 2.

(** The first JSON value of [s], white space before it skipped, and the
    text after it. *)
Definition first_value (s : string) : option (value * string) :=
  value_at (fuel_for s) (skip_space s).

(** A valid JSON text is one value with nothing but white space around
    it. *)
Definition valid (s : string) : bool :=
  match first_value s with
  | Some (_, rest) =>
    match skip_space rest with EmptyString => true | _ => false end
  | None => false
  end.

(** [json.NewDecoder(r).Decode(&out)] reads the first JSON value of the
    stream and leaves what follows it unread. *)
Definition Decode (s : string) : string + value :=
  match first_value s with
  | Some (v, _) => inr v
  | None => inl "invalid character"
  end.

(** A library with this decoder; its other parts are those of the sample
    library. *)
Definition stream_Library : Library := {|
  json_Marshal := @json_Marshal test.sample_Library;
  json_Decode := Decode;
  time_Now_Unix := @time_Now_Unix test.sample_Library;
  uuid_NewV4_String := @uuid_NewV4_String test.sample_Library
|}.

End json.

(** ** Sample constructions and requests *)

Module test_setup.
Import service test webman_setup service_setup.

(** The logger of [webman_test.go]. *)
Definition logger : Logger :=
  {| out := ioutil_Discard; prefix := "webman: "; flag := LstdFlags |}.

(** The options of [service_test.go] and of [main]. *)
Definition test_options : list (service_setup.Option testServiceProvider testWebman unit) :=
  [LogOutputOption ioutil_Discard; WebhookOption "test" "test";
   serviceProviderOption (Some Build_testServiceProvider);
   applicationServiceOption (Some Build_testWebman)].

Definition main_options : list (service_setup.Option testServiceProvider testWebman unit) :=
  [WebhookOption "/webhook" ":4000"].

(** The service [New] returns for the options of [service_test.go]. *)
Definition built : service_setup.Service testServiceProvider testWebman unit :=
  {| service_setup.mesgService := Some Build_testServiceProvider;
     service_setup.webman := Some (Injected Build_testWebman);
     service_setup.log :=
       Some {| out := ioutil_Discard; prefix := "service-webman: "; flag := LstdFlags |};
     logOutput := ioutil_Discard;
     webhookEndpoint := "test"; webhookAddr := "test" |}.

(** A [Webman] as [New] returns it for the logger of the service, and a
    service of [main] that owns it. *)
Definition own_webman : Webman unit :=
  {| timeout := Second * 10; client := Some {| Timeout := Second * 10 |};
     webhook := None;
     webman_setup.log :=
       Some {| out := os_Stdout; prefix := "service-webman: "; flag := LstdFlags |} |}.

Definition own_service : service_setup.Service testServiceProvider testWebman unit :=
  {| service_setup.mesgService := Some Build_testServiceProvider;
     service_setup.webman := Some (Own own_webman);
     service_setup.log :=
       Some {| out := os_Stdout; prefix := "service-webman: "; flag := LstdFlags |};
     logOutput := os_Stdout;
     webhookEndpoint := "/webhook"; webhookAddr := ":4000" |}.

(** A task whose replies the runtime refuses. *)
Definition refused_task {T} (input : string + T) : Request T :=
  {| mesg.Get := input; mesg.Reply_err := λ _ _, Some "closed connection" |}.

(** A service whose first relay call succeeds and whose later calls never
    return. *)
Definition ok_then_silent : service.Service testServiceProvider scripted :=
  {| service.mesgService := Build_testServiceProvider;
     service.webman := {| script := [Some answer_ok] |} |}.

End test_setup.

(** ** The relay call *)

Section relay.
Import service spec.
Context `{Application A} {P : Type}.
Implicit Types (s : Service P A) (hreq : httpRequest) (gs : list proc).

Lemma Sprintf_d_nonempty n : Sprintf_d n ≠ EmptyString.
Proof.
  unfold Sprintf_d.
  assert (Hu : ∀ d, NilZero.string_of_uint d ≠ EmptyString)
    by (intros []; discriminate).
  destruct (Z.to_int n); simpl; [apply Hu | discriminate].
Qed.

Lemma doPOSTRequest_eq s k hreq :
  doPOSTRequest s k hreq =
  DoCall (hreq_URL hreq) (hreq_Body hreq)
    match Post (webman s) k (hreq_URL hreq) (hreq_Body hreq) with
    | None => Block
    | Some res => Send (outcome (hreq_URL hreq) res) Return
    end.
Proof.
  unfold doPOSTRequest.
  destruct (Post _ _ _ _) as [[[statusCode out] [err|]]|]; reflexivity.
Qed.

Lemma sent_doPOSTRequest s k hreq :
  sent (doPOSTRequest s k hreq) =
  option_list (outcome (hreq_URL hreq) <$>
               Post (webman s) k (hreq_URL hreq) (hreq_Body hreq)).
Proof.
  rewrite doPOSTRequest_eq. simpl. by destruct (Post _ _ _ _).
Qed.

Lemma run_doPOSTRequest s k hreq :
  run 1 [] (doPOSTRequest s k hreq) =
  (λ res, ([Call (hreq_URL hreq) (hreq_Body hreq)], [outcome (hreq_URL hreq) res]))
    <$> Post (webman s) k (hreq_URL hreq) (hreq_Body hreq).
Proof.
  rewrite doPOSTRequest_eq. simpl. by destruct (Post _ _ _ _).
Qed.

Lemma outcome_exclusive url res :
  (resp_Error (outcome url res) = None ∧
   resp_StatusCode (outcome url res) ≠ EmptyString) ∨
  (resp_Error (outcome url res) ≠ None ∧
   resp_StatusCode (outcome url res) = EmptyString).
Proof.
  destruct res as [[statusCode out] [err|]]; simpl.
  - right. done.
  - left. split; [done | apply Sprintf_d_nonempty].
Qed.

End relay.

(** ** The fan-in over one-shot goroutines *)

Section fan_in.
Import service spec.
Implicit Types (gs : list proc) (rs : list response) (r : response).

Lemma ready_pending gs :
  length (filter (λ g, ready g = true) gs) = length (pending gs).
Proof.
  induction gs as [|g gs IH]; [done|].
  rewrite filter_cons. unfold pending in *.
  destruct g; simpl; try done. by f_equal.
Qed.

Lemma take_one_shot c gs r :
  Forall one_shot gs → pending gs !! c = Some r →
  ∃ gs', take c gs = Some (r, [], gs') ∧ Forall one_shot gs' ∧
         pending gs' = delete c (pending gs) ∧ length gs' = length gs ∧
         (Forall (λ g, g ≠ Block) gs → Forall (λ g, g ≠ Block) gs').
Proof.
  intros Hgs. revert c. induction Hgs as [|g gs Hg Hgs IH]; intros c Hc; [done|].
  assert (Hkeep : ∀ g' gs', g' ≠ Block →
    (Forall (λ g, g ≠ Block) gs → Forall (λ g, g ≠ Block) gs') →
    Forall (λ g, g ≠ Block) (g :: gs) → Forall (λ g, g ≠ Block) (g' :: gs')).
  { intros g' gs' Hg' Hrec Hb. inversion Hb. constructor; auto. }
  destruct g as [| resp k | |]; try done; simpl in *.
  - destruct k; try done. destruct c as [|c]; simpl in *.
    + simplify_eq. exists (Return :: gs).
      split_and!; try done; [by constructor | by apply Hkeep].
    + destruct (IH c Hc) as (gs' & -> & ? & Hp & ? & Hb). simpl.
      exists (Send resp Return :: gs').
      split_and!; simpl; try done;
        [by constructor | by rewrite Hp | by f_equal | by apply Hkeep].
  - destruct (IH c Hc) as (gs' & -> & ? & Hp & ? & Hb). simpl.
    exists (Return :: gs').
    split_and!; simpl; try done; [by constructor | by f_equal | by apply Hkeep].
  - destruct (IH c Hc) as (gs' & -> & ? & Hp & ? & Hb). simpl.
    exists (Block :: gs').
    split_and!; simpl; try done; [by constructor | by f_equal |].
    intros Hb'. by inversion Hb'.
Qed.

Lemma receive_one_shot choice gs :
  Forall one_shot gs → pending gs ≠ [] →
  ∃ c r gs', pending gs !! c = Some r ∧
             receive choice gs = Some (r, [], gs') ∧ Forall one_shot gs' ∧
             pending gs' = delete c (pending gs) ∧ length gs' = length gs ∧
             (Forall (λ g, g ≠ Block) gs → Forall (λ g, g ≠ Block) gs').
Proof.
  intros Hgs Hne. unfold receive. rewrite ready_pending.
  assert (Hlen : length (pending gs) ≠ 0) by (by destruct (pending gs)).
  rewrite decide_False by done.
  destruct (lookup_lt_is_Some_2 (pending gs) (choice mod length (pending gs)))
    as [r Hr]; [by apply Nat.mod_upper_bound|].
  destruct (take_one_shot _ _ _ Hgs Hr) as (gs' & ? & ? & ? & ? & ?).
  by exists (choice mod length (pending gs)), r, gs'.
Qed.

(** With no goroutine waiting, the receive blocks for ever. *)
Lemma receive_deadlock choice gs : pending gs = [] → receive choice gs = None.
Proof.
  intros Hp. unfold receive. rewrite ready_pending, Hp. done.
Qed.

Lemma fanin_one_shot n : ∀ sched gs hresp,
  Forall one_shot gs → n ≤ length (pending gs) →
  ∃ rs gs',
    fanin n sched gs hresp =
      Some (Recv <$> rs, gs', foldl (λ h r, store r h) hresp rs) ∧
    length rs = n ∧ rs ++ pending gs' ≡ₚ pending gs ∧
    Forall one_shot gs' ∧ length gs' = length gs ∧
    (Forall (λ g, g ≠ Block) gs → Forall (λ g, g ≠ Block) gs').
Proof.
  induction n as [|n IH]; intros sched gs hresp Hgs Hn.
  - exists [], gs. simpl. done.
  - assert (Hne : pending gs ≠ []) by (destruct (pending gs); simpl in *; [lia | done]).
    destruct (receive_one_shot (hd 0 sched) gs Hgs Hne)
      as (c & r & gs1 & Hc & Hrecv & Hgs1 & Hp1 & Hl1 & Hb1).
    assert (Hn1 : n ≤ length (pending gs1)).
    { rewrite Hp1, length_delete by eauto. lia. }
    destruct (IH (tl sched) gs1 (store r hresp) Hgs1 Hn1)
      as (rs & gs' & Hf & Hlen & Hperm & Hgs' & Hl' & Hb').
    exists (r :: rs), gs'. simpl. rewrite Hrecv. simpl. rewrite Hf. simpl.
    split; [done|]. split; [by f_equal|]. split.
    { rewrite Hperm, Hp1. symmetry. by apply delete_Permutation. }
    split; [done|]. split; [congruence | auto].
Qed.

(** A loop that wants more outcomes than goroutines offer never ends. *)
Lemma fanin_deadlock n : ∀ sched gs hresp,
  Forall one_shot gs → length (pending gs) < n → fanin n sched gs hresp = None.
Proof.
  induction n as [|n IH]; intros sched gs hresp Hgs Hn; [lia|].
  simpl. destruct (decide (pending gs = [])) as [Hp|Hp].
  - by rewrite receive_deadlock.
  - destruct (receive_one_shot (hd 0 sched) gs Hgs Hp)
      as (c & r & gs1 & Hc & -> & Hgs1 & Hp1 & Hl1 & Hb1).
    simpl. rewrite IH; [done | done |].
    rewrite Hp1, length_delete by eauto.
    apply lookup_lt_Some in Hc. lia.
Qed.

Lemma one_shot_finished gs :
  Forall one_shot gs → Forall (λ g, g ≠ Block) gs → pending gs = [] →
  gs = replicate (length gs) Return.
Proof.
  induction 1 as [|g gs Hg Hgs IH]; intros Hb Hp; [done|].
  inversion Hb; subst. destruct g; try done. simpl in *.
  f_equal. by apply IH.
Qed.

End fan_in.

(** ** The batch handler *)

Section batch.
Import service spec.
Context `{Application A} {P : Type}.
Implicit Types (s : Service P A) (batch : list httpRequest)
  (cs : list (string * value * option webman.PostResult)).

Lemma imap_doPOSTRequest s batch :
  imap (doPOSTRequest s) batch =
  (λ c, DoCall c.1.1 c.1.2 (after_call c)) <$> relay_calls s batch.
Proof.
  unfold relay_calls. rewrite fmap_imap. apply imap_ext.
  intros i h _. apply doPOSTRequest_eq.
Qed.

Lemma launch_calls cs :
  launch ((λ c, DoCall c.1.1 c.1.2 (after_call c)) <$> cs) =
  ((λ c, Call c.1.1 c.1.2) <$> cs, after_call <$> cs).
Proof.
  induction cs as [|c cs IH]; [done|].
  rewrite !fmap_cons. simpl. rewrite IH.
  assert (Hadv : advance (after_call c) = ([], after_call c))
    by (unfold after_call; by destruct (c.2)).
  by rewrite Hadv.
Qed.

Lemma after_call_one_shot cs : Forall one_shot (after_call <$> cs).
Proof.
  apply Forall_fmap, Forall_forall. intros c _.
  unfold after_call. simpl. by destruct (c.2).
Qed.

Lemma after_call_pending cs :
  pending (after_call <$> cs) = omap (λ c, outcome c.1.1 <$> c.2) cs.
Proof.
  induction cs as [|c cs IH]; [done|].
  rewrite fmap_cons. unfold pending in *. simpl.
  unfold after_call at 1. destruct (c.2); simpl; [f_equal|]; exact IH.
Qed.

Lemma relay_calls_length s batch : length (relay_calls s batch) = length batch.
Proof. unfold relay_calls. by rewrite length_imap. Qed.

Lemma relay_calls_request s batch :
  (λ c, Call c.1.1 c.1.2) <$> relay_calls s batch =
  (λ h, Call (hreq_URL h) (hreq_Body h)) <$> batch.
Proof.
  unfold relay_calls. rewrite fmap_imap.
  generalize 0. induction batch as [|h batch IH]; intros n; [done|].
  simpl. f_equal. apply (IH (S n)).
Qed.

Lemma all_return_calls s batch :
  all_return s batch ↔ Forall (λ c, is_Some c.2) (relay_calls s batch).
Proof.
  unfold all_return, relay_calls. rewrite Forall_lookup. split.
  - intros Hall i c Hc. apply list_lookup_imap_Some in Hc as (h & Hh & ->).
    simpl. eauto.
  - intros Hall i h Hh.
    apply (Hall i (hreq_URL h, hreq_Body h,
                   Post (webman s) i (hreq_URL h) (hreq_Body h))).
    rewrite list_lookup_imap, Hh. done.
Qed.

Lemma outcomes_all_return s batch :
  all_return s batch →
  length (outcomes s batch) = length batch ∧
  resp_URL <$> outcomes s batch = hreq_URL <$> batch ∧
  Forall (λ g, g ≠ Block) (after_call <$> relay_calls s batch).
Proof.
  rewrite all_return_calls. unfold outcomes.
  rewrite <- (relay_calls_length s batch).
  assert (Hu : (λ c, c.1.1) <$> relay_calls s batch = hreq_URL <$> batch).
  { unfold relay_calls. rewrite fmap_imap.
    generalize 0. induction batch as [|h batch IH]; intros n; [done|].
    simpl. f_equal. apply (IH (S n)). }
  rewrite <- Hu. clear Hu.
  induction 1 as [|c cs [res Hc] Hcs (IH1 & IH2 & IH3)]; [done|].
  rewrite !fmap_cons. simpl. rewrite Hc. simpl. split_and!.
  - by f_equal.
  - f_equal; [by destruct res as [[? ?] [?|]] | done].
  - constructor; [|done]. unfold after_call. by rewrite Hc.
Qed.

Lemma omap_length_le {X Y} (f : X → option Y) (l : list X) :
  length (omap f l) ≤ length l.
Proof.
  induction l as [|x l IH]; [done|]. simpl.
  destruct (f x); simpl; [apply le_n_S | apply le_S]; exact IH.
Qed.

Lemma outcomes_not_all_return s batch :
  ¬ all_return s batch → length (outcomes s batch) < length batch.
Proof.
  rewrite all_return_calls. unfold outcomes.
  rewrite <- (relay_calls_length s batch).
  induction (relay_calls s batch) as [|c cs IH]; intros Hn.
  - destruct Hn. constructor.
  - simpl. destruct (c.2) as [res|] eqn:Hc; simpl.
    + apply ->Nat.succ_lt_mono. apply IH.
      intros Hcs. apply Hn. constructor; [by rewrite Hc | done].
    + apply Nat.lt_succ_r. apply omap_length_le.
Qed.

(** The handler on a decoded batch whose calls all return: the calls in
    launch order, then one receive per request in some arrival order,
    then the reply; every goroutine has returned. *)
Lemma batchExecuteHandler_returns s (req : Request httpBatchRequest) sched hreq :
  mesg.Get req = inr hreq → all_return s (breq_Batch hreq) →
  ∃ rs,
    batchExecuteHandler s req sched =
      Some (((λ h, Call (hreq_URL h) (hreq_Body h)) <$> breq_Batch hreq) ++
            (Recv <$> rs) ++
            reply req "batch" (BatchData {| bresp_Batch := collect rs |}),
            replicate (length (breq_Batch hreq)) Return) ∧
    length rs = length (breq_Batch hreq) ∧
    rs ≡ₚ outcomes s (breq_Batch hreq).
Proof.
  intros HGet Hall. unfold batchExecuteHandler. rewrite HGet.
  rewrite imap_doPOSTRequest, launch_calls.
  destruct (outcomes_all_return s _ Hall) as (Hlen & _ & Hnb).
  set (gs := after_call <$> relay_calls s (breq_Batch hreq)) in *.
  assert (Hp : pending gs = outcomes s (breq_Batch hreq))
    by apply after_call_pending.
  destruct (fanin_one_shot (length (breq_Batch hreq)) sched gs
              {| Successes := ∅; Errors := ∅ |})
    as (rs & gs' & -> & Hrs & Hperm & Hgs' & Hl' & Hb');
    [apply after_call_one_shot | rewrite Hp; lia |].
  assert (Hnil : pending gs' = []).
  { apply Permutation_length in Hperm. rewrite length_app, Hp in Hperm.
    apply length_zero_iff_nil. lia. }
  rewrite Hnil, app_nil_r, Hp in Hperm.
  exists rs. simpl. split_and!; try done.
  rewrite relay_calls_request. repeat f_equal.
  rewrite (one_shot_finished gs') by auto.
  rewrite Hl'. unfold gs. by rewrite length_fmap, relay_calls_length.
Qed.

(** When some call never returns the handler never replies. *)
Lemma batchExecuteHandler_blocks s (req : Request httpBatchRequest) sched hreq :
  mesg.Get req = inr hreq → ¬ all_return s (breq_Batch hreq) →
  batchExecuteHandler s req sched = None.
Proof.
  intros HGet Hall. unfold batchExecuteHandler. rewrite HGet.
  rewrite imap_doPOSTRequest, launch_calls.
  rewrite fanin_deadlock; [done | apply after_call_one_shot |].
  rewrite after_call_pending. by apply outcomes_not_all_return.
Qed.

End batch.

(** ** What the collected maps hold *)

Section collected.
Import service spec.
Implicit Types (rs : list response) (r : response) (hresp : httpBatchResponseBody).

Lemma is_error_Some r err : resp_Error r = Some err → is_error r = true.
Proof. intros Hr. unfold is_error. rewrite Hr. by apply bool_decide_eq_true. Qed.

Lemma is_error_None r : resp_Error r = None → is_error r = false.
Proof. intros Hr. unfold is_error. rewrite Hr. apply bool_decide_eq_false. tauto. Qed.

Lemma store_error r err hresp :
  resp_Error r = Some err →
  store r hresp =
    {| Successes := Successes hresp;
       Errors := <[resp_URL r := {| err_Message := err |}]> (Errors hresp) |}.
Proof. intros Hr. unfold store. by rewrite Hr. Qed.

Lemma store_success r hresp :
  resp_Error r = None →
  store r hresp =
    {| Successes := <[resp_URL r := {| ok_StatusCode := resp_StatusCode r;
                                       ok_Body := resp_Body r |}]>
                      (Successes hresp);
       Errors := Errors hresp |}.
Proof. intros Hr. unfold store. by rewrite Hr. Qed.

Lemma foldl_store_dom rs : ∀ hresp,
  dom (Successes (foldl (λ h r, store r h) hresp rs)) =
    dom (Successes hresp) ∪ list_to_set (resp_URL <$> successes_of rs) ∧
  dom (Errors (foldl (λ h r, store r h) hresp rs)) =
    dom (Errors hresp) ∪ list_to_set (resp_URL <$> errors_of rs).
Proof.
  unfold successes_of, errors_of.
  induction rs as [|r rs IH]; intros hresp; simpl.
  - split; set_solver.
  - destruct (IH (store r hresp)) as [-> ->]. rewrite !filter_cons.
    destruct (resp_Error r) as [err|] eqn:Hr.
    + rewrite (is_error_Some r err Hr), (store_error r err) by done. simpl.
      rewrite dom_insert_L. split; set_solver.
    + rewrite (is_error_None r Hr), (store_success r) by done. simpl.
      rewrite dom_insert_L. split; set_solver.
Qed.

Lemma collect_dom rs :
  dom (Successes (collect rs)) = list_to_set (resp_URL <$> successes_of rs) ∧
  dom (Errors (collect rs)) = list_to_set (resp_URL <$> errors_of rs).
Proof.
  unfold collect. destruct (foldl_store_dom rs {| Successes := ∅; Errors := ∅ |})
    as [-> ->]. simpl. rewrite !dom_empty_L. split; set_solver.
Qed.

(** Every URL among the outcomes is a key of one of the maps. *)
Lemma collect_dom_union rs :
  dom (Successes (collect rs)) ∪ dom (Errors (collect rs)) =
  list_to_set (resp_URL <$> rs).
Proof.
  destruct (collect_dom rs) as [-> ->]. unfold successes_of, errors_of.
  apply set_eq. intros u.
  rewrite elem_of_union, !elem_of_list_to_set, !list_elem_of_fmap.
  split.
  - intros [(r & -> & Hr)|(r & -> & Hr)];
      apply list_elem_of_filter in Hr as [_ Hr]; eauto.
  - intros (r & -> & Hr). destruct (is_error r) eqn:He.
    + right. exists r. split; [done|]. by apply list_elem_of_filter.
    + left. exists r. split; [done|]. by apply list_elem_of_filter.
Qed.

(** The maps share no key when calls to one URL agree on failing. *)
Lemma collect_dom_disjoint rs :
  consistent rs → dom (Successes (collect rs)) ## dom (Errors (collect rs)).
Proof.
  intros Hcons. destruct (collect_dom rs) as [-> ->].
  unfold successes_of, errors_of. intros u.
  rewrite !elem_of_list_to_set, !list_elem_of_fmap.
  intros (r1 & -> & Hr1) (r2 & Hu & Hr2).
  apply list_elem_of_filter in Hr1 as [He1 Hr1].
  apply list_elem_of_filter in Hr2 as [He2 Hr2].
  specialize (Hcons r1 r2 Hr1 Hr2 Hu). congruence.
Qed.

Lemma foldl_store_app rs1 rs2 hresp :
  foldl (λ h r, store r h) hresp (rs1 ++ rs2) =
  foldl (λ h r, store r h) (foldl (λ h r, store r h) hresp rs1) rs2.
Proof. apply foldl_app. Qed.

(** Later outcomes leave an error entry alone unless one of them is an
    error for the same URL; likewise for a success entry. *)
Lemma foldl_store_keeps_error rs : ∀ hresp u,
  (∀ r, r ∈ rs → resp_URL r = u → resp_Error r = None) →
  Errors (foldl (λ h r, store r h) hresp rs) !! u = Errors hresp !! u.
Proof.
  induction rs as [|r rs IH]; intros hresp u Hrs; [done|]. simpl.
  rewrite IH by (intros r' Hr'; apply Hrs; by right).
  destruct (resp_Error r) as [err|] eqn:Hr.
  - rewrite (store_error r err) by done. simpl.
    apply lookup_insert_ne. intros Hu.
    specialize (Hrs r (list_elem_of_here _ _) Hu). congruence.
  - by rewrite (store_success r).
Qed.

Lemma foldl_store_keeps_success rs : ∀ hresp u,
  (∀ r, r ∈ rs → resp_URL r = u → resp_Error r ≠ None) →
  Successes (foldl (λ h r, store r h) hresp rs) !! u = Successes hresp !! u.
Proof.
  induction rs as [|r rs IH]; intros hresp u Hrs; [done|]. simpl.
  rewrite IH by (intros r' Hr'; apply Hrs; by right).
  destruct (resp_Error r) as [err|] eqn:Hr.
  - by rewrite (store_error r err).
  - rewrite (store_success r) by done. simpl.
    apply lookup_insert_ne. intros Hu.
    by specialize (Hrs r (list_elem_of_here _ _) Hu).
Qed.

Lemma consistent_Permutation rs1 rs2 : rs1 ≡ₚ rs2 → consistent rs1 → consistent rs2.
Proof.
  intros Hp Hc r1 r2 H1 H2. apply Hc; by rewrite Hp.
Qed.

End collected.

(** ** Reading a trace *)

Section traces.
Import service spec.
Context {T : Type}.
Implicit Types (req : Request T) (batch : list httpRequest) (rs : list response).

Lemma replies_of_reply req kind data : replies_of (reply req kind data) = [(kind, data)].
Proof. unfold reply. by destruct (mesg.Reply_err _ _ _). Qed.

Lemma received_of_reply req kind data : received_of (reply req kind data) = [].
Proof. unfold reply. by destruct (mesg.Reply_err _ _ _). Qed.

Lemma calls_of_reply req kind data : calls_of (reply req kind data) = [].
Proof. unfold reply. by destruct (mesg.Reply_err _ _ _). Qed.

Lemma trace_replies batch rs req kind data :
  replies_of (((λ h, Call (hreq_URL h) (hreq_Body h)) <$> batch) ++
              (Recv <$> rs) ++ reply req kind data) = [(kind, data)].
Proof.
  unfold replies_of. rewrite !omap_app. fold (replies_of (reply req kind data)).
  rewrite replies_of_reply.
  assert (Hc : omap (λ e, match e with Reply k d => Some (k, d) | _ => None end)
                 ((λ h, Call (hreq_URL h) (hreq_Body h)) <$> batch) = [])
    by (induction batch; [done | assumption]).
  assert (Hr : omap (λ e, match e with Reply k d => Some (k, d) | _ => None end)
                 (Recv <$> rs) = [])
    by (induction rs; [done | assumption]).
  by rewrite Hc, Hr.
Qed.

Lemma trace_received batch rs req kind data :
  received_of (((λ h, Call (hreq_URL h) (hreq_Body h)) <$> batch) ++
               (Recv <$> rs) ++ reply req kind data) = rs.
Proof.
  unfold received_of. rewrite !omap_app. fold (received_of (reply req kind data)).
  rewrite received_of_reply, app_nil_r.
  assert (Hc : omap (λ e, match e with Recv r => Some r | _ => None end)
                 ((λ h, Call (hreq_URL h) (hreq_Body h)) <$> batch) = [])
    by (induction batch; [done | assumption]).
  assert (Hr : omap (λ e, match e with Recv r => Some r | _ => None end)
                 (Recv <$> rs) = rs).
  { induction rs as [|r rs IH]; [done|]. rewrite fmap_cons. simpl. f_equal. exact IH. }
  by rewrite Hc, Hr.
Qed.

Lemma trace_calls batch rs req kind data :
  calls_of (((λ h, Call (hreq_URL h) (hreq_Body h)) <$> batch) ++
            (Recv <$> rs) ++ reply req kind data) =
  (λ h, (hreq_URL h, hreq_Body h)) <$> batch.
Proof.
  unfold calls_of. rewrite !omap_app. fold (calls_of (reply req kind data)).
  rewrite calls_of_reply, app_nil_r.
  assert (Hr : omap (λ e, match e with Call u d => Some (u, d) | _ => None end)
                 (Recv <$> rs) = [])
    by (induction rs; [done | assumption]).
  rewrite Hr, app_nil_r.
  induction batch as [|h batch IH]; [done|]. rewrite !fmap_cons. simpl. f_equal. exact IH.
Qed.

End traces.

(** ** The batch task *)

Section batch_claims.
Import service spec.
Context `{Application A} {P : Type}.
Implicit Types (s : Service P A) (req : Request httpBatchRequest)
  (sched : list nat) (hreq : httpBatchRequest).

(** C1, as amended.  When every relay call of the batch returns and no
    URL has both a succeeding and a failing call (so in particular when
    the URLs are pairwise distinct), then for every arrival order the
    batch result has no URL in both maps, its keys are the URLs of the
    batch, and the sizes of the two maps add up to the number of distinct
    URLs. *)
Theorem batch_result_partitions_urls s req sched hreq :
  mesg.Get req = inr hreq →
  all_return s (breq_Batch hreq) →
  consistent (outcomes s (breq_Batch hreq)) →
  ∃ es gs hresp,
    batchExecuteHandler s req sched = Some (es, gs) ∧
    replies_of es = [("batch", BatchData {| bresp_Batch := hresp |})] ∧
    dom (Successes hresp) ## dom (Errors hresp) ∧
    dom (Successes hresp) ∪ dom (Errors hresp) = distinct_urls (breq_Batch hreq) ∧
    size (Successes hresp) + size (Errors hresp) =
      size (distinct_urls (breq_Batch hreq)).
Proof.
  intros HGet Hall Hcons.
  destruct (batchExecuteHandler_returns s req sched hreq HGet Hall)
    as (rs & Hrun & Hlen & Hperm).
  destruct (outcomes_all_return s _ Hall) as (_ & Hurls & _).
  assert (Hdisj : dom (Successes (collect rs)) ## dom (Errors (collect rs))).
  { apply collect_dom_disjoint. eapply consistent_Permutation; [|done]. done. }
  assert (Hunion : dom (Successes (collect rs)) ∪ dom (Errors (collect rs)) =
                   distinct_urls (breq_Batch hreq)).
  { rewrite collect_dom_union. unfold distinct_urls.
    rewrite <- Hurls. apply list_to_set_perm_L. by rewrite Hperm. }
  eexists _, _, (collect rs). split; [exact Hrun|].
  split; [apply trace_replies|]. split; [done|]. split; [done|].
  rewrite <- Hunion, size_union by done. by rewrite !size_dom.
Qed.

(** C2.  On a decoded batch of N requests whose calls all return, the
    handler receives exactly N outcomes, a rearrangement of the outcomes
    of the N calls, and only then replies.  Each outcome, when it is
    received, is written under its URL: with an error into the errors
    map as the error text, leaving the successes map as it was, and
    otherwise into the successes map as status code and body, leaving
    the errors map as it was.  The entry is still there in the reply
    unless a later outcome of the same kind for the same URL replaced
    it, and in any case the URL is a key of that map in the reply. *)
Theorem batch_records_every_outcome s req sched hreq :
  mesg.Get req = inr hreq →
  all_return s (breq_Batch hreq) →
  ∃ rs gs,
    batchExecuteHandler s req sched =
      Some (((λ h, Call (hreq_URL h) (hreq_Body h)) <$> breq_Batch hreq) ++
            (Recv <$> rs) ++
            reply req "batch" (BatchData {| bresp_Batch := collect rs |}), gs) ∧
    length rs = length (breq_Batch hreq) ∧
    rs ≡ₚ outcomes s (breq_Batch hreq) ∧
    ∀ pre r post, rs = pre ++ r :: post →
      match resp_Error r with
      | Some err =>
        Errors (collect (pre ++ [r])) !! resp_URL r = Some {| err_Message := err |} ∧
        Successes (collect (pre ++ [r])) = Successes (collect pre) ∧
        ((∀ r', r' ∈ post → resp_URL r' = resp_URL r → resp_Error r' = None) →
         Errors (collect rs) !! resp_URL r = Some {| err_Message := err |}) ∧
        is_Some (Errors (collect rs) !! resp_URL r)
      | None =>
        Successes (collect (pre ++ [r])) !! resp_URL r =
          Some {| ok_StatusCode := resp_StatusCode r; ok_Body := resp_Body r |} ∧
        Errors (collect (pre ++ [r])) = Errors (collect pre) ∧
        ((∀ r', r' ∈ post → resp_URL r' = resp_URL r → resp_Error r' ≠ None) →
         Successes (collect rs) !! resp_URL r =
           Some {| ok_StatusCode := resp_StatusCode r; ok_Body := resp_Body r |}) ∧
        is_Some (Successes (collect rs) !! resp_URL r)
      end.
Proof.
  intros HGet Hall.
  destruct (batchExecuteHandler_returns s req sched hreq HGet Hall)
    as (rs & Hrun & Hlen & Hperm).
  exists rs, (replicate (length (breq_Batch hreq)) Return).
  split; [exact Hrun|]. split; [done|]. split; [done|].
  intros pre r post ->.
  assert (Hstep : collect (pre ++ [r]) = store r (collect pre))
    by (unfold collect; by rewrite foldl_store_app).
  assert (Hall_rs : collect (pre ++ r :: post) =
                    foldl (λ h r, store r h) (store r (collect pre)) post)
    by (unfold collect; by rewrite foldl_store_app).
  assert (Hin : r ∈ pre ++ r :: post) by (apply elem_of_app; right; left).
  destruct (resp_Error r) as [err|] eqn:Hr.
  - rewrite Hstep, (store_error r err) by done. simpl.
    split; [apply lookup_insert_eq|]. split; [done|]. split.
    + intros Hpost. rewrite Hall_rs, foldl_store_keeps_error by done.
      rewrite (store_error r err) by done. apply lookup_insert_eq.
    + apply elem_of_dom. destruct (collect_dom (pre ++ r :: post)) as [_ ->].
      apply elem_of_list_to_set, list_elem_of_fmap. exists r. split; [done|].
      apply list_elem_of_filter. split; [by eapply is_error_Some | done].
  - rewrite Hstep, (store_success r) by done. simpl.
    split; [apply lookup_insert_eq|]. split; [done|]. split.
    + intros Hpost. rewrite Hall_rs, foldl_store_keeps_success by done.
      rewrite (store_success r) by done. apply lookup_insert_eq.
    + apply elem_of_dom. destruct (collect_dom (pre ++ r :: post)) as [-> _].
      apply elem_of_list_to_set, list_elem_of_fmap. exists r. split; [done|].
      apply list_elem_of_filter. split; [by apply is_error_None | done].
Qed.

(** C8.  On the empty batch the handler makes no relay call and sends
    one reply, of kind "batch", whose successes and errors maps are both
    empty. *)
Theorem batch_empty s req sched :
  mesg.Get req = inr {| breq_Batch := [] |} →
  ∃ es,
    batchExecuteHandler s req sched = Some (es, []) ∧
    calls_of es = [] ∧
    received_of es = [] ∧
    replies_of es =
      [("batch", BatchData {| bresp_Batch := {| Successes := ∅; Errors := ∅ |} |})].
Proof.
  intros HGet. unfold batchExecuteHandler. rewrite HGet. simpl.
  eexists. split; [done|].
  by rewrite calls_of_reply, received_of_reply, replies_of_reply.
Qed.

(** C9.  A call of [doPOSTRequest] whose relay call returns sends exactly
    one outcome on the channel, the error outcome when the relay failed
    and the success outcome otherwise.  Hence, when every relay call of a
    batch returns, the fan-in loop ends under every schedule: the handler
    returns having received as many outcomes as it launched requests, and
    every goroutine has returned. *)
Theorem doPOSTRequest_sends_once s :
  (∀ k (h : httpRequest) statusCode out err,
     Post (webman s) k (hreq_URL h) (hreq_Body h) =
       Some (statusCode, out, Some err) →
     sent (doPOSTRequest s k h) =
       [{| resp_URL := hreq_URL h; resp_StatusCode := EmptyString;
           resp_Body := out; resp_Error := Some err |}]) ∧
  (∀ k (h : httpRequest) statusCode out,
     Post (webman s) k (hreq_URL h) (hreq_Body h) =
       Some (statusCode, out, None) →
     sent (doPOSTRequest s k h) =
       [{| resp_URL := hreq_URL h; resp_StatusCode := Sprintf_d statusCode;
           resp_Body := out; resp_Error := None |}]) ∧
  (∀ req sched hreq,
     mesg.Get req = inr hreq →
     all_return s (breq_Batch hreq) →
     ∃ es,
       batchExecuteHandler s req sched =
         Some (es, replicate (length (breq_Batch hreq)) Return) ∧
       length (received_of es) = length (breq_Batch hreq)).
Proof.
  split_and!.
  - intros k h statusCode out err HPost.
    by rewrite sent_doPOSTRequest, HPost.
  - intros k h statusCode out HPost.
    by rewrite sent_doPOSTRequest, HPost.
  - intros req sched hreq HGet Hall.
    destruct (batchExecuteHandler_returns s req sched hreq HGet Hall)
      as (rs & Hrun & Hlen & Hperm).
    eexists. split; [exact Hrun|]. by rewrite trace_received.
Qed.

End batch_claims.

(** ** The relay outcome and the execute task *)

Section execute_claims.
Import service spec.
Context `{Application A} {P : Type}.
Implicit Types (s : Service P A) (req : Request httpRequest) (hreq : httpRequest).

(** C7.  Every outcome [doPOSTRequest] sends comes from a returned relay
    call, carries the URL of the request and the body the relay left,
    and has exactly one of the two forms: no error and a non-empty status
    code, or an error and the empty status code. *)
Theorem relay_outcome_exclusive s k hreq r :
  r ∈ sent (doPOSTRequest s k hreq) →
  (∃ statusCode out err,
     Post (webman s) k (hreq_URL hreq) (hreq_Body hreq) =
       Some (statusCode, out, err) ∧
     resp_URL r = hreq_URL hreq ∧ resp_Body r = out ∧ resp_Error r = err) ∧
  ((resp_Error r = None ∧ resp_StatusCode r ≠ EmptyString) ∨
   (resp_Error r ≠ None ∧ resp_StatusCode r = EmptyString)) ∧
  ¬ (resp_Error r ≠ None ∧ resp_StatusCode r ≠ EmptyString).
Proof.
  rewrite sent_doPOSTRequest.
  destruct (Post _ _ _ _) as [[[statusCode out] err]|] eqn:HPost; simpl.
  - intros ->%list_elem_of_singleton. split.
    + exists statusCode, out, err. by destruct err.
    + pose proof (outcome_exclusive (hreq_URL hreq) (statusCode, out, err)) as He.
      split; [exact He|]. intros [? ?]. destruct He as [[? ?]|[? ?]]; done.
  - intros Hr. by apply not_elem_of_nil in Hr.
Qed.

(** C5.  [executeHandler] replies once.  When the task input does not
    decode, the reply has kind "error" and its message ends with the
    text of the decoding error, and no relay call is made.  When the
    input decodes and the relay call returns an error, the reply has
    kind "error".  When the relay call returns without error, the reply
    has kind "success" and carries the status code, as a decimal string,
    and the response body. *)
Theorem execute_replies s req :
  (∀ err, mesg.Get req = inl err →
     ∃ es, executeHandler s req = Some es ∧ calls_of es = [] ∧
       replies_of es =
         [("error", ErrorData {| err_Message :=
             "err while decoding input data: " +:+ err |})]) ∧
  (∀ hreq statusCode out err,
     mesg.Get req = inr hreq →
     Post (webman s) 0 (hreq_URL hreq) (hreq_Body hreq) =
       Some (statusCode, out, Some err) →
     ∃ es, executeHandler s req = Some es ∧
       replies_of es =
         [("error", ErrorData {| err_Message :=
             "err while performing the post request: " +:+ err |})]) ∧
  (∀ hreq statusCode out,
     mesg.Get req = inr hreq →
     Post (webman s) 0 (hreq_URL hreq) (hreq_Body hreq) =
       Some (statusCode, out, None) →
     ∃ es, executeHandler s req = Some es ∧
       replies_of es =
         [("success", SuccessData {| ok_StatusCode := Sprintf_d statusCode;
                                     ok_Body := out |})]).
Proof.
  split_and!.
  - intros err HGet. unfold executeHandler. rewrite HGet.
    eexists. split; [done|]. by rewrite calls_of_reply, replies_of_reply.
  - intros hreq statusCode out err HGet HPost. unfold executeHandler.
    rewrite HGet, run_doPOSTRequest, HPost. simpl.
    eexists. split; [done|]. unfold replies_of. simpl.
    apply (replies_of_reply req).
  - intros hreq statusCode out HGet HPost. unfold executeHandler.
    rewrite HGet, run_doPOSTRequest, HPost. simpl.
    eexists. split; [done|]. unfold replies_of. simpl.
    apply (replies_of_reply req).
Qed.

End execute_claims.

(** ** The relay over HTTP *)

Section webman_claims.
Import service spec.
Context `{Library} {P : Type}.
Implicit Types (s : Service P webman.Webman) (hreq : httpRequest).

(** C6.  With [webman.Post] as the relay: when the request body
    marshals, the network answers with a response and the response body
    decodes, the one outcome sent is a success outcome that carries the
    status code of the response, whatever it is, as a decimal string,
    and the decoded body.  An outcome carries an error only if
    marshalling the request failed, or the transport failed, or decoding
    the response body failed, and then it carries that error. *)
Theorem relay_passes_status_through s k hreq :
  (∀ dataBytes resp out,
     json_Marshal (hreq_Body hreq) = inr dataBytes →
     webman.client_Post (webman.client (webman s)) k (hreq_URL hreq)
       "application/json" dataBytes = Some (inr resp) →
     json_Decode (webman.Body resp) = inr out →
     sent (doPOSTRequest s k hreq) =
       [{| resp_URL := hreq_URL hreq;
           resp_StatusCode := Sprintf_d (webman.StatusCode resp);
           resp_Body := out; resp_Error := None |}]) ∧
  (∀ r err,
     r ∈ sent (doPOSTRequest s k hreq) → resp_Error r = Some err →
     json_Marshal (hreq_Body hreq) = inl err ∨
     ∃ dataBytes,
       json_Marshal (hreq_Body hreq) = inr dataBytes ∧
       (webman.client_Post (webman.client (webman s)) k (hreq_URL hreq)
          "application/json" dataBytes = Some (inl err) ∨
        ∃ resp,
          webman.client_Post (webman.client (webman s)) k (hreq_URL hreq)
            "application/json" dataBytes = Some (inr resp) ∧
          json_Decode (webman.Body resp) = inl err)).
Proof.
  split.
  - intros dataBytes resp out HMarshal HPost HDecode.
    rewrite sent_doPOSTRequest. simpl. unfold webman.Post.
    by rewrite HMarshal, HPost, HDecode.
  - intros r err. rewrite sent_doPOSTRequest. simpl. unfold webman.Post.
    destruct (json_Marshal (hreq_Body hreq)) as [merr|dataBytes]; simpl.
    { intros ->%list_elem_of_singleton. simpl. intros [= ->]. by left. }
    intros Hr He. right. exists dataBytes. split; [reflexivity|].
    destruct (webman.client_Post _ _ _ _ _) as [[terr|resp]|]; simpl in Hr.
    + apply list_elem_of_singleton in Hr as ->. simpl in He.
      injection He as ->. by left.
    + right. exists resp. split; [reflexivity|].
      destruct (json_Decode (webman.Body resp)) as [derr|out]; simpl in Hr;
        apply list_elem_of_singleton in Hr as ->; simpl in He; congruence.
    + by apply not_elem_of_nil in Hr.
Qed.

End webman_claims.

(** ** The webhook *)

Section webhook_claims.
Import service spec.
Context `{Library} `{ServiceProvider P} {A : Type}.
Implicit Types (s : Service P A) (req : webman.Request).

(** C3, as amended.  When the decoder rejects the body of a webhook
    request, that is when [json.NewDecoder(req.Body).Decode] returns an
    error, [webhookHandler] returns the error "json data payload expected" and
    emits nothing, and the HTTP handler answers with status 400, content
    type application/json and, as body, the bytes [json.Marshal] gives
    for the object with the one key "error" holding the object with the
    one key "message" holding that text. *)
Theorem webhook_rejects_undecodable_body s req werr decode_err :
  json_Decode (webman.req_Body req) = inl decode_err →
  webhookHandler s req = (Some "json data payload expected", []) ∧
  let '(w, es, logs) := webman.handler (webhookHandler s) (NewResponseWriter werr) req in
  emitted_of es = [] ∧
  webman.status w = Some 400%Z ∧
  webman.Header w !! "Content-Type" = Some "application/json" ∧
  ∀ bytes,
    json_Marshal
      (VObject [("error",
         VObject [("message", VString "json data payload expected")])]) = inr bytes →
    webman.written w = bytes.
Proof.
  intros HDecode.
  assert (Hfn : webhookHandler s req = (Some "json data payload expected", []))
    by (unfold webhookHandler; by rewrite HDecode).
  split; [exact Hfn|].
  unfold webman.handler. rewrite Hfn. unfold webman.errorResponse_value. simpl.
  destruct (json_Marshal _) as [merr|bytes]; simpl.
  - split_and!; try done. 
  - destruct werr; simpl; split_and!; try done; by intros ? [= ->].
Qed.

(** C4.  When the body of a webhook request decodes, the handler emits
    one event that carries the decoded body, and the HTTP answer is
    status 202 with no header and no body written, whatever [EmitEvent]
    returns. *)
Theorem webhook_accepts_decodable_body s req werr out :
  json_Decode (webman.req_Body req) = inr out →
  (webhookHandler s req).1 = None ∧
  emitted_of (webhookHandler s req).2 =
    [("onRequest",
      {| Date := time_Now_Unix; ID := uuid_NewV4_String; wh_Body := out |})] ∧
  (webman.handler (webhookHandler s) (NewResponseWriter werr) req).1.1 =
    {| webman.Header := ∅; webman.status := Some 202%Z;
       webman.written := EmptyString; webman.Write_err := werr |}.
Proof.
  intros HDecode. unfold webman.handler, webhookHandler. rewrite HDecode.
  by destruct (EmitEvent _ _ _).
Qed.

(** C10.  Every event [webhookHandler] emits, and so every event emitted
    while the HTTP handler serves a request, has the name "onRequest". *)
Theorem webhook_emits_onRequest_only s req w :
  Forall (λ e, e.1 = "onRequest") (emitted_of (webhookHandler s req).2) ∧
  Forall (λ e, e.1 = "onRequest")
    (emitted_of (webman.handler (webhookHandler s) w req).1.2).
Proof.
  assert (Hfn : Forall (λ e, e.1 = "onRequest") (emitted_of (webhookHandler s req).2)).
  { unfold webhookHandler. destruct (json_Decode _); [constructor|].
    destruct (EmitEvent _ _ _); simpl; by repeat constructor. }
  split; [exact Hfn|]. unfold webman.handler.
  destruct (webhookHandler s req) as [[err|] es]; simpl in *; [|done].
  destruct (json_Marshal _); [done|].
  by destruct (webman.Write_err _).
Qed.

End webhook_claims.

(** ** The statements at sample inputs *)

Import service spec test.

Ltac sample_calls_return :=
  intros [|[|i]] h Hh; simpl in Hh; simplify_eq; simpl; eauto.

(** C1 as stated fails: with the URL "http://a" twice in the batch, the
    first call succeeding and the second failing, the URL is a key of
    both maps and the two sizes add up to 2 for one distinct URL. *)
Lemma batch_duplicate_url_in_both_maps :
  ∃ es gs hresp,
    batchExecuteHandler ok_then_refused
      (task (inr {| breq_Batch := [to_a; to_a] |})) [] = Some (es, gs) ∧
    replies_of es = [("batch", BatchData {| bresp_Batch := hresp |})] ∧
    "http://a" ∈ dom (Successes hresp) ∧
    "http://a" ∈ dom (Errors hresp) ∧
    ¬ (dom (Successes hresp) ## dom (Errors hresp)) ∧
    size (Successes hresp) + size (Errors hresp) = 2 ∧
    size (distinct_urls [to_a; to_a]) = 1.
Proof.
  eexists _, _,
    (collect [outcome "http://a" answer_ok; outcome "http://a" answer_refused]).
  split; [reflexivity|]. split; [reflexivity|].
  assert (Hs : "http://a" ∈ dom (Successes
    (collect [outcome "http://a" answer_ok; outcome "http://a" answer_refused])))
    by (apply elem_of_dom; vm_compute; eauto).
  assert (He : "http://a" ∈ dom (Errors
    (collect [outcome "http://a" answer_ok; outcome "http://a" answer_refused])))
    by (apply elem_of_dom; vm_compute; eauto).
  split; [exact Hs|]. split; [exact He|].
  split; [intros Hd; exact (Hd _ Hs He)|].
  split; vm_compute; reflexivity.
Qed.

Lemma batch_result_partitions_urls_witness :
  ∃ es gs hresp,
    batchExecuteHandler ok_then_refused
      (task (inr {| breq_Batch := [to_a; to_b] |})) [1] = Some (es, gs) ∧
    replies_of es = [("batch", BatchData {| bresp_Batch := hresp |})] ∧
    dom (Successes hresp) ## dom (Errors hresp) ∧
    dom (Successes hresp) ∪ dom (Errors hresp) = distinct_urls [to_a; to_b] ∧
    size (Successes hresp) + size (Errors hresp) = size (distinct_urls [to_a; to_b]).
Proof.
  apply (batch_result_partitions_urls ok_then_refused _ [1]
           {| breq_Batch := [to_a; to_b] |}).
  - reflexivity.
  - sample_calls_return.
  - intros r1 r2 H1 H2. unfold outcomes, relay_calls in H1, H2. simpl in H1, H2.
    apply elem_of_cons in H1 as [->|H1];
      [|apply list_elem_of_singleton in H1 as ->];
      (apply elem_of_cons in H2 as [->|H2];
       [|apply list_elem_of_singleton in H2 as ->]);
      simpl; intros Hu; first [reflexivity | discriminate Hu].
Defined.

Lemma batch_records_every_outcome_witness :
  ∃ rs gs,
    batchExecuteHandler ok_then_refused
      (task (inr {| breq_Batch := [to_a; to_b] |})) [1] =
      Some ([Call "http://a" VNil; Call "http://b" VNil] ++ (Recv <$> rs) ++
            [Reply "batch" (BatchData {| bresp_Batch := collect rs |})], gs) ∧
    length rs = 2 ∧
    rs ≡ₚ [outcome "http://a" answer_ok; outcome "http://b" answer_refused] ∧
    ∀ pre r post, rs = pre ++ r :: post →
      resp_Error r = Some "dial tcp: connection refused" →
      Errors (collect (pre ++ [r])) !! resp_URL r =
        Some {| err_Message := "dial tcp: connection refused" |} ∧
      is_Some (Errors (collect rs) !! resp_URL r).
Proof.
  destruct (batch_records_every_outcome ok_then_refused
              (task (inr {| breq_Batch := [to_a; to_b] |})) [1]
              {| breq_Batch := [to_a; to_b] |})
    as (rs & gs & Hrun & Hlen & Hperm & Hrec).
  - reflexivity.
  - sample_calls_return.
  - exists rs, gs. split; [exact Hrun|]. split; [exact Hlen|]. split; [exact Hperm|].
    intros pre r post Hrs Hr. specialize (Hrec pre r post Hrs).
    rewrite Hr in Hrec. destruct Hrec as (Hnow & _ & _ & Hend). by split.
Defined.

Lemma batch_empty_witness :
  ∃ es,
    batchExecuteHandler test_service (task (inr {| breq_Batch := [] |})) [] =
      Some (es, []) ∧
    calls_of es = [] ∧ received_of es = [] ∧
    replies_of es =
      [("batch", BatchData {| bresp_Batch := {| Successes := ∅; Errors := ∅ |} |})].
Proof.
  apply (batch_empty test_service (task (inr {| breq_Batch := [] |})) []).
  reflexivity.
Defined.

Lemma doPOSTRequest_sends_once_witness :
  sent (doPOSTRequest ok_then_refused 1 to_b) =
    [{| resp_URL := "http://b"; resp_StatusCode := EmptyString;
        resp_Body := VNil; resp_Error := Some "dial tcp: connection refused" |}] ∧
  sent (doPOSTRequest ok_then_refused 0 to_a) =
    [{| resp_URL := "http://a"; resp_StatusCode := "200";
        resp_Body := VObject []; resp_Error := None |}] ∧
  ∃ es,
    batchExecuteHandler ok_then_refused
      (task (inr {| breq_Batch := [to_a; to_b] |})) [1] =
      Some (es, [Return; Return]) ∧
    length (received_of es) = 2.
Proof.
  destruct (doPOSTRequest_sends_once ok_then_refused) as (Herr & Hok & Hloop).
  split; [|split].
  - apply (Herr 1 to_b 0%Z VNil). reflexivity.
  - apply (Hok 0 to_a 200%Z (VObject [])). reflexivity.
  - apply (Hloop (task (inr {| breq_Batch := [to_a; to_b] |})) [1]
             {| breq_Batch := [to_a; to_b] |}).
    + reflexivity.
    + sample_calls_return.
Defined.

Lemma relay_outcome_exclusive_witness :
  (resp_Error (outcome "http://b" answer_refused) = None ∧
   resp_StatusCode (outcome "http://b" answer_refused) ≠ EmptyString) ∨
  (resp_Error (outcome "http://b" answer_refused) ≠ None ∧
   resp_StatusCode (outcome "http://b" answer_refused) = EmptyString).
Proof.
  apply (relay_outcome_exclusive ok_then_refused 1 to_b
           (outcome "http://b" answer_refused)).
  simpl. left.
Defined.

Lemma execute_replies_witness :
  (∃ es, executeHandler test_service (task (inl "unexpected end of JSON input")) = Some es ∧
     calls_of es = [] ∧
     replies_of es =
       [("error", ErrorData {| err_Message :=
           "err while decoding input data: unexpected end of JSON input" |})]) ∧
  (∃ es, executeHandler ok_then_refused (task (inr to_a)) = Some es ∧
     replies_of es =
       [("success", SuccessData {| ok_StatusCode := "200"; ok_Body := VObject [] |})]) ∧
  (∃ es, executeHandler
           {| mesgService := Build_testServiceProvider;
              webman := {| script := [Some answer_refused] |} |}
           (task (inr to_b)) = Some es ∧
     replies_of es =
       [("error", ErrorData {| err_Message :=
           "err while performing the post request: dial tcp: connection refused" |})]).
Proof.
  split; [|split].
  - apply (proj1 (execute_replies test_service
                    (task (inl "unexpected end of JSON input")))
             "unexpected end of JSON input").
    reflexivity.
  - apply (proj2 (proj2 (execute_replies ok_then_refused (task (inr to_a))))
             to_a 200%Z (VObject [])); reflexivity.
  - apply (proj1 (proj2 (execute_replies
             {| mesgService := Build_testServiceProvider;
                webman := {| script := [Some answer_refused] |} |}
             (task (inr to_b))))
             to_b 0%Z VNil "dial tcp: connection refused"); reflexivity.
Defined.

Lemma relay_passes_status_through_witness :
  sent (doPOSTRequest relay_service 0 {| hreq_URL := "http://a"; hreq_Body := VObject [] |}) =
    [{| resp_URL := "http://a"; resp_StatusCode := "404";
        resp_Body := VObject []; resp_Error := None |}].
Proof.
  apply (proj1 (relay_passes_status_through relay_service 0
                  {| hreq_URL := "http://a"; hreq_Body := VObject [] |})
           "{}" {| webman.StatusCode := 404; webman.Body := "{}" |} (VObject []));
    reflexivity.
Defined.

Lemma webhook_rejects_undecodable_body_witness :
  webhookHandler test_service {| webman.req_Body := "not json" |} =
    (Some "json data payload expected", []) ∧
  let '(w, es, logs) :=
    webman.handler (webhookHandler test_service) (NewResponseWriter None)
      {| webman.req_Body := "not json" |} in
  emitted_of es = [] ∧
  webman.status w = Some 400%Z ∧
  webman.Header w !! "Content-Type" = Some "application/json" ∧
  ∀ bytes,
    json_Marshal
      (VObject [("error",
         VObject [("message", VString "json data payload expected")])]) = inr bytes →
    webman.written w = bytes.
Proof.
  apply (webhook_rejects_undecodable_body test_service
           {| webman.req_Body := "not json" |} None "invalid character").
  reflexivity.
Defined.

Lemma webhook_accepts_decodable_body_witness :
  (webhookHandler failing_service {| webman.req_Body := "{}" |}).1 = None ∧
  emitted_of (webhookHandler failing_service {| webman.req_Body := "{}" |}).2 =
    [("onRequest",
      {| Date := time_Now_Unix; ID := uuid_NewV4_String; wh_Body := VObject [] |})] ∧
  (webman.handler (webhookHandler failing_service) (NewResponseWriter None)
     {| webman.req_Body := "{}" |}).1.1 =
    {| webman.Header := ∅; webman.status := Some 202%Z;
       webman.written := EmptyString; webman.Write_err := None |}.
Proof.
  apply (webhook_accepts_decodable_body failing_service
           {| webman.req_Body := "{}" |} None (VObject [])).
  reflexivity.
Defined.

(** ** Further properties of the task handlers *)

Section arrival_order.
Import observe.
Implicit Types (rs : list response) (r : response) (u : string).

Lemma collect_snoc rs r : collect (rs ++ [r]) = store r (collect rs).
Proof. unfold collect. by rewrite foldl_snoc. Qed.

Lemma last_for_snoc u rs r :
  last_for u (rs ++ [r]) = if decide (resp_URL r = u) then Some r else last_for u rs.
Proof.
  unfold last_for. rewrite filter_app, filter_cons, filter_nil.
  case_decide; [apply last_snoc | by rewrite app_nil_r].
Qed.

(** Each map holds, under a URL, the entry of the last outcome of its kind
    that arrived for that URL. *)
Lemma collect_last rs u :
  Successes (collect rs) !! u = success_entry <$> last_for u (successes_of rs) ∧
  Errors (collect rs) !! u = last_for u (errors_of rs) ≫= error_entry.
Proof.
  induction rs as [|r rs [IHs IHe]] using rev_ind; [done|].
  rewrite collect_snoc. unfold successes_of, errors_of in *.
  rewrite !filter_app, !filter_cons, !filter_nil.
  destruct (resp_Error r) as [err|] eqn:Hr.
  - rewrite (is_error_Some r err Hr), (store_error r err) by done. simpl.
    rewrite app_nil_r, last_for_snoc. split; [done|].
    case_decide as Hu.
    + subst u. rewrite lookup_insert_eq. simpl. unfold error_entry. by rewrite Hr.
    + by rewrite lookup_insert_ne.
  - rewrite (is_error_None r Hr), (store_success r) by done. simpl.
    rewrite app_nil_r, last_for_snoc. split; [|done].
    case_decide as Hu.
    + subst u. by rewrite lookup_insert_eq.
    + by rewrite lookup_insert_ne.
Qed.

Lemma filter_url_NoDup (Q : response → Prop) `{∀ r, Decision (Q r)} rs u :
  NoDup (resp_URL <$> rs) →
  length (filter (λ r, resp_URL r = u) (filter Q rs)) ≤ 1.
Proof.
  induction rs as [|r rs IH]; intros Hnd; [simpl; lia|].
  rewrite fmap_cons in Hnd. apply NoDup_cons in Hnd as [Hr Hnd].
  specialize (IH Hnd). rewrite filter_cons.
  destruct (decide (Q r)); [|done]. rewrite filter_cons.
  destruct (decide (resp_URL r = u)) as [Hu|]; [|done].
  assert (Hnil : filter (λ r, resp_URL r = u) (filter Q rs) = []).
  { destruct (filter _ (filter Q rs)) as [|r' l] eqn:Hf; [done|].
    assert (Hr' : r' ∈ filter (λ r, resp_URL r = u) (filter Q rs))
      by (rewrite Hf; left).
    apply list_elem_of_filter in Hr' as [Hu' Hr'].
    apply list_elem_of_filter in Hr' as [_ Hr'].
    destruct Hr. apply list_elem_of_fmap. exists r'. split; [congruence|done]. }
  rewrite Hnil. simpl. lia.
Qed.

Lemma Permutation_short {X} (l1 l2 : list X) : l1 ≡ₚ l2 → length l1 ≤ 1 → l1 = l2.
Proof.
  intros Hp Hl. destruct l1 as [|x [|y l1]]; simpl in Hl; [| |lia].
  - by apply Permutation_nil_l.
  - by apply Permutation_singleton_l.
Qed.

(** With pairwise distinct URLs the arrival order does not matter. *)
Lemma collect_Permutation rs1 rs2 :
  NoDup (resp_URL <$> rs1) → rs1 ≡ₚ rs2 → collect rs1 = collect rs2.
Proof.
  intros Hnd Hp.
  assert (Hlast : ∀ (Q : response → Prop) `{∀ r, Decision (Q r)} u,
            last_for u (filter Q rs1) = last_for u (filter Q rs2)).
  { intros Q ? u. unfold last_for. f_equal. apply Permutation_short.
    - by rewrite Hp.
    - by apply filter_url_NoDup. }
  assert (Hs : Successes (collect rs1) = Successes (collect rs2)).
  { apply map_eq. intros u.
    destruct (collect_last rs1 u) as [-> _], (collect_last rs2 u) as [-> _].
    unfold successes_of. by rewrite Hlast. }
  assert (He : Errors (collect rs1) = Errors (collect rs2)).
  { apply map_eq. intros u.
    destruct (collect_last rs1 u) as [_ ->], (collect_last rs2 u) as [_ ->].
    unfold errors_of. by rewrite Hlast. }
  destruct (collect rs1), (collect rs2). simpl in *. by subst.
Qed.

End arrival_order.

Section handler_extras.
Import observe.
Context `{Application A} {P : Type}.
Implicit Types (s : Service P A) (sched : list nat).

Lemma logs_of_reply {T} (req : Request T) kind data :
  logs_of (reply req kind data) =
  match mesg.Reply_err req kind data with
  | Some err => ["error while reply: " +:+ err]
  | None => []
  end.
Proof. unfold reply. by destruct (mesg.Reply_err _ _ _). Qed.

Lemma trace_logs {T} (req : Request T) (batch : list httpRequest) rs kind data :
  logs_of (((λ h, Call (hreq_URL h) (hreq_Body h)) <$> batch) ++
           (Recv <$> rs) ++ reply req kind data) =
  logs_of (reply req kind data).
Proof.
  unfold logs_of. rewrite !omap_app.
  assert (Hc : omap (λ e, match e with Log line => Some line | _ => None end)
                 ((λ h, Call (hreq_URL h) (hreq_Body h)) <$> batch) = [])
    by (induction batch; [done | assumption]).
  assert (Hr : omap (λ e, match e with Log line => Some line | _ => None end)
                 (Recv <$> rs) = [])
    by (induction rs; [done | assumption]).
  by rewrite Hc, Hr.
Qed.

(** X1.  When the input of a batch task does not decode, the handler
    starts no goroutine, makes no relay call and receives nothing; it
    sends one reply, of kind "error", whose message is "err while decoding
    batch input data: " followed by the text of the decoding error. *)
Theorem batch_undecodable_input s (req : Request httpBatchRequest) sched err :
  mesg.Get req = inl err →
  ∃ es,
    batchExecuteHandler s req sched = Some (es, []) ∧
    calls_of es = [] ∧ received_of es = [] ∧
    replies_of es =
      [("error", ErrorData {| err_Message :=
          "err while decoding batch input data: " +:+ err |})].
Proof.
  intros HGet. unfold batchExecuteHandler. rewrite HGet.
  eexists. split; [done|].
  by rewrite calls_of_reply, received_of_reply, replies_of_reply.
Qed.

(** X2.  Last write wins: in the reply of a batch whose calls all return,
    the successes map holds under each URL the status code and body of the
    last success outcome received for that URL, and nothing when none was
    received; the errors map holds the text of the last error outcome
    received for it. *)
Theorem batch_last_write_wins s (req : Request httpBatchRequest) sched hreq :
  mesg.Get req = inr hreq →
  all_return s (breq_Batch hreq) →
  ∃ es gs hresp,
    batchExecuteHandler s req sched = Some (es, gs) ∧
    replies_of es = [("batch", BatchData {| bresp_Batch := hresp |})] ∧
    received_of es ≡ₚ outcomes s (breq_Batch hreq) ∧
    ∀ u,
      Successes hresp !! u =
        success_entry <$> last_for u (successes_of (received_of es)) ∧
      Errors hresp !! u =
        last_for u (errors_of (received_of es)) ≫= error_entry.
Proof.
  intros HGet Hall.
  destruct (batchExecuteHandler_returns s req sched hreq HGet Hall)
    as (rs & Hrun & Hlen & Hperm).
  eexists _, _, (collect rs). split; [exact Hrun|].
  rewrite trace_replies, trace_received. split; [done|]. split; [done|].
  intros u. apply collect_last.
Qed.

(** X3.  For a batch of pairwise distinct URLs whose calls all return, the
    reply does not depend on the order in which the outcomes arrive: under
    every schedule it carries the maps obtained from the outcomes in
    launch order. *)
Theorem batch_distinct_urls_any_schedule s (req : Request httpBatchRequest) sched hreq :
  mesg.Get req = inr hreq →
  all_return s (breq_Batch hreq) →
  NoDup (hreq_URL <$> breq_Batch hreq) →
  ∃ es gs,
    batchExecuteHandler s req sched = Some (es, gs) ∧
    replies_of es =
      [("batch", BatchData {| bresp_Batch := collect (outcomes s (breq_Batch hreq)) |})].
Proof.
  intros HGet Hall Hnd.
  destruct (batchExecuteHandler_returns s req sched hreq HGet Hall)
    as (rs & Hrun & Hlen & Hperm).
  destruct (outcomes_all_return s _ Hall) as (_ & Hurls & _).
  eexists _, _. split; [exact Hrun|]. rewrite trace_replies.
  do 4 f_equal. symmetry. apply collect_Permutation; [by rewrite Hurls | done].
Qed.

(** X4.  On a decoded batch the handler returns exactly when every relay
    call of the batch returns: one call that never returns keeps the
    handler from ever replying, under every schedule. *)
Theorem batch_returns_iff_calls_return s (req : Request httpBatchRequest) sched hreq :
  mesg.Get req = inr hreq →
  (is_Some (batchExecuteHandler s req sched) ↔ all_return s (breq_Batch hreq)) ∧
  (¬ all_return s (breq_Batch hreq) → batchExecuteHandler s req sched = None).
Proof.
  intros HGet. split; [split|].
  - intros [x Hx] i h Hh.
    destruct (Post (webman s) i (hreq_URL h) (hreq_Body h)) as [res|] eqn:HPost;
      [by eexists|].
    rewrite (batchExecuteHandler_blocks s req sched hreq HGet) in Hx; [done|].
    intros Hall. specialize (Hall i h Hh). rewrite HPost in Hall.
    by destruct Hall.
  - intros Hall.
    destruct (batchExecuteHandler_returns s req sched hreq HGet Hall) as (rs & -> & _).
    by eexists.
  - by apply batchExecuteHandler_blocks.
Qed.

(** X5.  A batch handler that returns has made exactly one relay call per
    request, with the URL and body of that request, also when calls
    failed, in an order that is up to the scheduler; it has received one
    outcome per request and sent one reply. *)
Theorem batch_one_call_per_request s (req : Request httpBatchRequest) sched hreq es gs :
  mesg.Get req = inr hreq →
  batchExecuteHandler s req sched = Some (es, gs) →
  calls_of es ≡ₚ (λ h, (hreq_URL h, hreq_Body h)) <$> breq_Batch hreq ∧
  length (received_of es) = length (breq_Batch hreq) ∧
  length (replies_of es) = 1 ∧
  gs = replicate (length (breq_Batch hreq)) Return.
Proof.
  intros HGet Hrun.
  assert (Hall : all_return s (breq_Batch hreq)).
  { intros i h Hh.
    destruct (Post (webman s) i (hreq_URL h) (hreq_Body h)) as [res|] eqn:HPost;
      [by eexists|].
    rewrite (batchExecuteHandler_blocks s req sched hreq HGet) in Hrun; [done|].
    intros Hall. specialize (Hall i h Hh). rewrite HPost in Hall.
    by destruct Hall. }
  destruct (batchExecuteHandler_returns s req sched hreq HGet Hall)
    as (rs & Hrun' & Hlen & Hperm).
  rewrite Hrun' in Hrun. injection Hrun as <- <-.
  by rewrite trace_calls, trace_received, trace_replies.
Qed.

(** X6.  On a decoded input [executeHandler] returns exactly when the
    relay call returns; it then has made that one call, with the URL and
    body of the request, received its outcome and sent one reply. *)
Theorem execute_one_call s (req : Request httpRequest) hreq :
  mesg.Get req = inr hreq →
  (executeHandler s req = None ↔
   Post (webman s) 0 (hreq_URL hreq) (hreq_Body hreq) = None) ∧
  ∀ es, executeHandler s req = Some es →
    calls_of es = [(hreq_URL hreq, hreq_Body hreq)] ∧
    (∃ res, Post (webman s) 0 (hreq_URL hreq) (hreq_Body hreq) = Some res ∧
            received_of es = [outcome (hreq_URL hreq) res]) ∧
    length (replies_of es) = 1.
Proof.
  intros HGet. unfold executeHandler. rewrite HGet, run_doPOSTRequest.
  destruct (Post _ _ _ _) as [[[statusCode out] [err|]]|]; simpl.
  - split; [done|]. intros es [= <-]. unfold calls_of, received_of, replies_of. simpl.
    fold (calls_of (reply req "error" (ErrorData {| err_Message :=
            "err while performing the post request: " +:+ err |}))).
    fold (received_of (reply req "error" (ErrorData {| err_Message :=
            "err while performing the post request: " +:+ err |}))).
    fold (replies_of (reply req "error" (ErrorData {| err_Message :=
            "err while performing the post request: " +:+ err |}))).
    rewrite calls_of_reply, received_of_reply, replies_of_reply.
    split; [done|]. split; [|done]. by eexists.
  - split; [done|]. intros es [= <-]. unfold calls_of, received_of, replies_of. simpl.
    fold (calls_of (reply req "success" (SuccessData
            {| ok_StatusCode := Sprintf_d statusCode; ok_Body := out |}))).
    fold (received_of (reply req "success" (SuccessData
            {| ok_StatusCode := Sprintf_d statusCode; ok_Body := out |}))).
    fold (replies_of (reply req "success" (SuccessData
            {| ok_StatusCode := Sprintf_d statusCode; ok_Body := out |}))).
    rewrite calls_of_reply, received_of_reply, replies_of_reply.
    split; [done|]. split; [|done]. by eexists.
  - split; [done|]. intros es [=].
Qed.

End handler_extras.

Section reply_delivery.
Import observe.
Context `{Application A} {P : Type}.
Implicit Types (s : Service P A) (sched : list nat).

Lemma executeHandler_trace s (req : Request httpRequest) es :
  executeHandler s req = Some es →
  ∃ pre kind data,
    es = pre ++ reply req kind data ∧
    replies_of pre = [] ∧ logs_of pre = [] ∧
    ∀ req' : Request httpRequest, mesg.Get req' = mesg.Get req →
      executeHandler s req' = Some (pre ++ reply req' kind data).
Proof.
  intros Hrun. destruct (mesg.Get req) as [err|hreq] eqn:HGet.
  - unfold executeHandler in Hrun. rewrite HGet in Hrun. injection Hrun as <-.
    exists []. eexists _, _. split; [done|]. split; [done|].
    split; [done|]. intros req' HGet'. unfold executeHandler. by rewrite HGet'.
  - unfold executeHandler in Hrun. rewrite HGet, run_doPOSTRequest in Hrun.
    destruct (Post _ _ _ _) as [[[statusCode out] [err|]]|] eqn:HPost;
      simpl in Hrun; [| |done].
    + injection Hrun as <-.
      exists [Call (hreq_URL hreq) (hreq_Body hreq);
              Recv (outcome (hreq_URL hreq) (statusCode, out, Some err))].
      eexists _, _. split; [done|]. split; [done|]. split; [done|].
      intros req' HGet'. unfold executeHandler.
      by rewrite HGet', run_doPOSTRequest, HPost.
    + injection Hrun as <-.
      exists [Call (hreq_URL hreq) (hreq_Body hreq);
              Recv (outcome (hreq_URL hreq) (statusCode, out, None))].
      eexists _, _. split; [done|]. split; [done|]. split; [done|].
      intros req' HGet'. unfold executeHandler.
      by rewrite HGet', run_doPOSTRequest, HPost.
Qed.

Lemma batchExecuteHandler_batch_run s (req : Request httpBatchRequest) sched hreq :
  mesg.Get req = inr hreq →
  batchExecuteHandler s req sched =
  '(pre, gs, hresp) ← batch_run s (breq_Batch hreq) sched;
  Some (pre ++ reply req "batch" (BatchData {| bresp_Batch := hresp |}), gs).
Proof.
  intros HGet. unfold batchExecuteHandler, batch_run. rewrite HGet.
  destruct (launch _) as [calls gs0].
  destruct (fanin _ _ _ _) as [[[es0 gs1] hresp]|]; simpl; [|done].
  by rewrite app_assoc.
Qed.

Lemma batch_run_returns s (batch : list httpRequest) sched pre gs hresp :
  batch_run s batch sched = Some (pre, gs, hresp) →
  ∃ rs, pre = ((λ h, Call (hreq_URL h) (hreq_Body h)) <$> batch) ++ (Recv <$> rs) ∧
        hresp = collect rs.
Proof.
  intros Hrun.
  set (req := {| mesg.Get := inr {| breq_Batch := batch |};
                 mesg.Reply_err := λ _ _, None |} : Request httpBatchRequest).
  pose proof (batchExecuteHandler_batch_run s req sched _ eq_refl) as Hh.
  simpl in Hh. rewrite Hrun in Hh. simpl in Hh.
  assert (Hall : all_return s batch).
  { intros i h Hh'.
    destruct (Post (webman s) i (hreq_URL h) (hreq_Body h)) as [res|] eqn:HPost;
      [by eexists|].
    rewrite (batchExecuteHandler_blocks s req sched {| breq_Batch := batch |})
      in Hh; [done | done |].
    intros Hall. specialize (Hall i h Hh'). rewrite HPost in Hall.
    by destruct Hall. }
  destruct (batchExecuteHandler_returns s req sched _ eq_refl Hall)
    as (rs & Hrun' & _).
  rewrite Hh in Hrun'. injection Hrun' as Hes _. exists rs.
  unfold reply in Hes. simpl in Hes. rewrite app_assoc in Hes.
  apply app_inj_tail in Hes as [-> Hr]. by injection Hr as ->.
Qed.

(** X7.  A reply that cannot be delivered is logged and nothing else: a
    task handler that returns has sent exactly one reply, and its log is
    the one line "error while reply: " followed by the error text when the
    runtime refused that reply, and is empty otherwise. *)
Theorem reply_failure_is_logged s :
  (∀ (req : Request httpRequest) es,
     executeHandler s req = Some es →
     ∃ kind data,
       replies_of es = [(kind, data)] ∧
       logs_of es = match mesg.Reply_err req kind data with
                    | Some err => ["error while reply: " +:+ err]
                    | None => []
                    end) ∧
  (∀ (req : Request httpBatchRequest) sched es gs,
     batchExecuteHandler s req sched = Some (es, gs) →
     ∃ kind data,
       replies_of es = [(kind, data)] ∧
       logs_of es = match mesg.Reply_err req kind data with
                    | Some err => ["error while reply: " +:+ err]
                    | None => []
                    end).
Proof.
  split.
  - intros req es Hrun.
    destruct (executeHandler_trace s req es Hrun) as (pre & kind & data & -> & Hr & Hl & _).
    exists kind, data. unfold replies_of, logs_of in *. rewrite !omap_app, Hr, Hl.
    split; [apply (replies_of_reply req) | apply (logs_of_reply req)].
  - intros req sched es gs Hrun.
    destruct (mesg.Get req) as [err|hreq] eqn:HGet.
    + unfold batchExecuteHandler in Hrun. rewrite HGet in Hrun. injection Hrun as <- <-.
      eexists _, _. by rewrite replies_of_reply, logs_of_reply.
    + rewrite (batchExecuteHandler_batch_run s req sched hreq HGet) in Hrun.
      destruct (batch_run _ _ _) as [[[pre gs'] hresp]|] eqn:Hbody; [|done].
      simpl in Hrun. injection Hrun as <- <-.
      destruct (batch_run_returns s _ sched pre gs' hresp Hbody) as (rs & -> & ->).
      eexists _, _. rewrite <- app_assoc. by rewrite trace_replies, trace_logs, logs_of_reply.
Qed.

(** X8.  Whether replies can be delivered changes nothing else: two task
    requests with the same input make the same relay calls, receive the
    same outcomes and send the same reply, however the runtime answers
    their replies. *)
Theorem reply_delivery_changes_nothing_else s :
  (∀ req1 req2 : Request httpRequest,
     mesg.Get req1 = mesg.Get req2 →
     calls_of <$> executeHandler s req1 = calls_of <$> executeHandler s req2 ∧
     received_of <$> executeHandler s req1 = received_of <$> executeHandler s req2 ∧
     replies_of <$> executeHandler s req1 = replies_of <$> executeHandler s req2) ∧
  (∀ (req1 req2 : Request httpBatchRequest) sched,
     mesg.Get req1 = mesg.Get req2 →
     calls_of ∘ fst <$> batchExecuteHandler s req1 sched =
       calls_of ∘ fst <$> batchExecuteHandler s req2 sched ∧
     received_of ∘ fst <$> batchExecuteHandler s req1 sched =
       received_of ∘ fst <$> batchExecuteHandler s req2 sched ∧
     replies_of ∘ fst <$> batchExecuteHandler s req1 sched =
       replies_of ∘ fst <$> batchExecuteHandler s req2 sched).
Proof.
  assert (Hreply : ∀ T (req1 req2 : Request T) pre kind data,
    calls_of (pre ++ reply req1 kind data) = calls_of (pre ++ reply req2 kind data) ∧
    received_of (pre ++ reply req1 kind data) = received_of (pre ++ reply req2 kind data) ∧
    replies_of (pre ++ reply req1 kind data) = replies_of (pre ++ reply req2 kind data)).
  { intros T req1 req2 pre kind data. unfold calls_of, received_of, replies_of.
    rewrite !omap_app.
    pose proof (calls_of_reply req1 kind data) as Hc1.
    pose proof (calls_of_reply req2 kind data) as Hc2.
    pose proof (received_of_reply req1 kind data) as Hv1.
    pose proof (received_of_reply req2 kind data) as Hv2.
    pose proof (replies_of_reply req1 kind data) as Hp1.
    pose proof (replies_of_reply req2 kind data) as Hp2.
    unfold calls_of, received_of, replies_of in *.
    by rewrite Hc1, Hc2, Hv1, Hv2, Hp1, Hp2. }
  split.
  - intros req1 req2 HGet.
    destruct (executeHandler s req1) as [es|] eqn:Hrun.
    + destruct (executeHandler_trace s req1 es Hrun)
        as (pre & kind & data & -> & _ & _ & Hother).
      rewrite (Hother req2) by done. simpl.
      destruct (Hreply _ req1 req2 pre kind data) as (-> & -> & ->). done.
    + destruct (executeHandler s req2) as [es|] eqn:Hrun2; [|done].
      destruct (executeHandler_trace s req2 es Hrun2)
        as (pre & kind & data & -> & _ & _ & Hother).
      rewrite (Hother req1) in Hrun by done. done.
  - intros req1 req2 sched HGet.
    destruct (mesg.Get req2) as [err|hreq] eqn:HGet2.
    + unfold batchExecuteHandler. rewrite HGet, HGet2. simpl.
      destruct (Hreply _ req1 req2 [] "error" (ErrorData {| err_Message :=
                  "err while decoding batch input data: " +:+ err |}))
        as (Hc & Hv & Hp). simpl in *. by rewrite Hc, Hv, Hp.
    + rewrite (batchExecuteHandler_batch_run s req1 sched hreq HGet).
      rewrite (batchExecuteHandler_batch_run s req2 sched hreq HGet2).
      destruct (batch_run _ _ _) as [[[pre gs'] hresp]|]; [|done]. simpl.
      destruct (Hreply _ req1 req2 pre "batch"
                  (BatchData {| bresp_Batch := hresp |})) as (-> & -> & ->). done.
Qed.

End reply_delivery.

Section constant_relay.
Import observe.
Context `{Application A} {P : Type}.
Implicit Types (s : Service P A) (sched : list nat).

Lemma omap_imap_constant (g : nat → httpRequest → option webman.PostResult)
    (batch : list httpRequest) res :
  (∀ i h, batch !! i = Some h → g i h = Some res) →
  omap (λ c : string * value * option webman.PostResult, outcome c.1.1 <$> c.2)
    (imap (λ i h, (hreq_URL h, hreq_Body h, g i h)) batch) =
  (λ h, outcome (hreq_URL h) res) <$> batch.
Proof.
  revert g. induction batch as [|h batch IH]; intros g Hg; [done|].
  rewrite imap_cons. simpl. rewrite (Hg 0 h eq_refl). simpl. f_equal.
  apply (IH (λ i, g (S i))). intros i h' Hh'. apply (Hg (S i) h' Hh').
Qed.

Lemma outcomes_constant s (batch : list httpRequest) res :
  (∀ i h, batch !! i = Some h →
     Post (webman s) i (hreq_URL h) (hreq_Body h) = Some res) →
  outcomes s batch = (λ h, outcome (hreq_URL h) res) <$> batch.
Proof.
  intros HPost. unfold outcomes, relay_calls.
  by apply (omap_imap_constant
              (λ i h, Post (webman s) i (hreq_URL h) (hreq_Body h))).
Qed.

(** X9.  With a relay that answers every call of the batch with the same
    status code and body and no error, as the stub of the tests does, the
    reply under every schedule has an empty errors map and a successes map
    that holds exactly the URLs of the batch, each with that status code,
    in decimal, and that body. *)
Theorem batch_constant_relay s (req : Request httpBatchRequest) sched hreq statusCode out :
  mesg.Get req = inr hreq →
  (∀ i h, breq_Batch hreq !! i = Some h →
     Post (webman s) i (hreq_URL h) (hreq_Body h) = Some (statusCode, out, None)) →
  ∃ es gs hresp,
    batchExecuteHandler s req sched = Some (es, gs) ∧
    replies_of es = [("batch", BatchData {| bresp_Batch := hresp |})] ∧
    Errors hresp = ∅ ∧
    Successes hresp =
      gset_to_gmap {| ok_StatusCode := Sprintf_d statusCode; ok_Body := out |}
        (distinct_urls (breq_Batch hreq)) ∧
    size (Successes hresp) = size (distinct_urls (breq_Batch hreq)).
Proof.
  intros HGet HPost.
  assert (Hall : all_return s (breq_Batch hreq))
    by (intros i h Hh; rewrite (HPost i h Hh); by eexists).
  destruct (batchExecuteHandler_returns s req sched hreq HGet Hall)
    as (rs & Hrun & Hlen & Hperm).
  rewrite (outcomes_constant s _ _ HPost) in Hperm.
  assert (Hrs : Forall (λ r, is_error r = false ∧
                  success_entry r =
                    {| ok_StatusCode := Sprintf_d statusCode; ok_Body := out |}) rs).
  { rewrite Hperm. apply Forall_fmap, Forall_forall. intros h _. simpl. done. }
  assert (Hurls : resp_URL <$> rs ≡ₚ hreq_URL <$> breq_Batch hreq).
  { rewrite Hperm, <- list_fmap_compose. done. }
  assert (Hsucc : successes_of rs = rs).
  { unfold successes_of. clear -Hrs. induction Hrs as [|r rs [Hr _] _ IH]; [done|].
    rewrite filter_cons, decide_True by done. by f_equal. }
  assert (Herr : errors_of rs = []).
  { unfold errors_of. clear -Hrs. induction Hrs as [|r rs [Hr _] _ IH]; [done|].
    rewrite filter_cons, decide_False by congruence. done. }
  assert (HE : Errors (collect rs) = ∅).
  { apply dom_empty_inv_L. destruct (collect_dom rs) as [_ ->]. by rewrite Herr. }
  assert (HS : Successes (collect rs) =
               gset_to_gmap {| ok_StatusCode := Sprintf_d statusCode; ok_Body := out |}
                 (distinct_urls (breq_Batch hreq))).
  { apply map_eq. intros u. destruct (collect_last rs u) as [-> _].
    rewrite Hsucc, lookup_gset_to_gmap. unfold last_for, distinct_urls.
    destruct (last (filter (λ r, resp_URL r = u) rs)) as [r|] eqn:Hlast.
    - apply last_Some_elem_of, list_elem_of_filter in Hlast as [Hu Hr].
      rewrite option_guard_True.
      + simpl. f_equal. rewrite Forall_forall in Hrs. by apply Hrs.
      + apply elem_of_list_to_set. rewrite <- Hurls.
        apply list_elem_of_fmap. by exists r.
    - apply last_None in Hlast. rewrite option_guard_False; [done|].
      rewrite elem_of_list_to_set, <- Hurls. intros (r & -> & Hr)%list_elem_of_fmap.
      by apply (filter_nil_not_elem_of _ _ r) in Hlast. }
  eexists _, _, (collect rs). split; [exact Hrun|]. split; [apply trace_replies|].
  split; [done|]. split; [done|].
  by rewrite <- size_dom, HS, dom_gset_to_gmap.
Qed.

End constant_relay.

(** ** Further properties of package webman *)

Section webman_extras.
Context `{Library}.

(** X10.  For every callback, the webhook handler hands the callback's
    effects on unchanged and answers by the callback's result alone: 202
    with nothing written and nothing logged when it returns nil; 400 with
    the JSON content type when it returns an error.  In that case the body
    is the marshalled error object and a failing write is logged, or, when
    marshalling fails, the body stays empty and that is logged; neither
    failure changes the status. *)
Theorem handler_answers_by_callback {E} (fn : webman.Request → error * E) r werr :
  let '(w, eff, logs) := webman.handler fn (NewResponseWriter werr) r in
  eff = (fn r).2 ∧
  match (fn r).1 with
  | None =>
    w = {| webman.Header := ∅; webman.status := Some 202%Z;
           webman.written := EmptyString; webman.Write_err := werr |} ∧
    logs = []
  | Some err =>
    webman.status w = Some 400%Z ∧
    webman.Header w = {["Content-Type" := "application/json"]} ∧
    match json_Marshal (VObject [("error", VObject [("message", VString err)])]) with
    | inr bytes =>
      webman.written w = bytes ∧
      logs = match werr with
             | Some e => ["error while sending http response: " +:+ e]
             | None => []
             end
    | inl merr =>
      webman.written w = EmptyString ∧
      logs = ["error while encoding error response: " +:+ merr]
    end
  end.
Proof.
  unfold webman.handler. destruct (fn r) as [[err|] eff]; simpl; [|done].
  unfold webman.errorResponse_value. simpl.
  destruct (json_Marshal _) as [merr|bytes]; simpl.
  - split; [done|]. split; [done|]. split; [|done].
    unfold NewResponseWriter. simpl. by rewrite insert_empty.
  - destruct werr; simpl; (split; [done|]); (split; [done|]);
      (split; [unfold NewResponseWriter; simpl; by rewrite insert_empty | done]).
Qed.

(** X11.  [Post] returns status code 0 with the error when the request
    body does not marshal, whatever the network would answer, and when the
    transport fails; when the response arrives but its body does not
    decode it returns the status code of the response with the error.  It
    never returns exactly when the body marshals and the network call
    never returns. *)
Theorem Post_error_cases (w : webman.Webman) k url data :
  (∀ err, json_Marshal data = inl err →
     ∀ w' k', webman.Post w' k' url data = Some (0%Z, VNil, Some err)) ∧
  (∀ dataBytes err,
     json_Marshal data = inr dataBytes →
     webman.client_Post (webman.client w) k url "application/json" dataBytes =
       Some (inl err) →
     webman.Post w k url data = Some (0%Z, VNil, Some err)) ∧
  (∀ dataBytes resp err,
     json_Marshal data = inr dataBytes →
     webman.client_Post (webman.client w) k url "application/json" dataBytes =
       Some (inr resp) →
     json_Decode (webman.Body resp) = inl err →
     ∃ out, webman.Post w k url data = Some (webman.StatusCode resp, out, Some err)) ∧
  (webman.Post w k url data = None ↔
   ∃ dataBytes,
     json_Marshal data = inr dataBytes ∧
     webman.client_Post (webman.client w) k url "application/json" dataBytes = None).
Proof.
  unfold webman.Post. split_and!.
  - intros err -> w' k'. done.
  - intros dataBytes err -> ->. done.
  - intros dataBytes resp err -> -> ->. by eexists.
  - destruct (json_Marshal data) as [merr|dataBytes].
    + split; [done|]. by intros (? & ? & _).
    + destruct (webman.client_Post _ _ _ _ _) as [[terr|resp]|] eqn:HPost.
      * split; [done|]. intros (b & [= <-] & Hb). congruence.
      * destruct (json_Decode _); (split; [done|]);
          intros (b & [= <-] & Hb); congruence.
      * split; [|done]. intros _. by exists dataBytes.
Qed.

End webman_extras.

Section webman_setup_extras.
Import webman_setup.
Context {F : Type}.
Implicit Types (w : Webman F) (options : list (webman_setup.Option F)).

Lemma foldl_keeps {X} (f : Webman F → X) options w :
  Forall (keeps f) options → f (foldl (λ w option, option w) w options) = f w.
Proof.
  intros Hk. revert w. induction Hk as [|o options Ho _ IH]; intros w; [done|].
  simpl. by rewrite IH, Ho.
Qed.

(** X12.  [New] of package webman returns the error "no logger set", and
    no [Webman], when no option sets a logger or the last option that sets
    one sets nil; it returns a [Webman] with that logger when the last
    option that sets one sets a logger. *)
Theorem webman_New_needs_logger options1 options2 :
  Forall (keeps log) options2 →
  (Forall (keeps log) options1 → New (options1 ++ options2) = inl "no logger set") ∧
  New (options1 ++ [LoggerOption None] ++ options2) = inl "no logger set" ∧
  ∀ l, ∃ w, New (options1 ++ [LoggerOption (Some l)] ++ options2) = inr w ∧
            log w = Some l.
Proof.
  intros Hk2. unfold New. split_and!.
  - intros Hk1. rewrite foldl_keeps; [done|]. by apply Forall_app.
  - rewrite !foldl_app, foldl_keeps by done. done.
  - intros l. rewrite !foldl_app. simpl.
    rewrite (foldl_keeps webman_setup.log) by done. simpl.
    eexists. split; done.
Qed.

(** X13.  A [Webman] that [New] returns has an HTTP client whose timeout
    equals its own timeout.  That timeout is 10 seconds when no option
    sets it, and the duration of the last [TimeoutOption] otherwise. *)
Theorem webman_New_timeout options w :
  New options = inr w →
  client w = Some {| Timeout := timeout w |} ∧
  (Forall (keeps timeout) options → timeout w = (10 * 1000000000)%Z) ∧
  (∀ options1 options2 d,
     options = options1 ++ [TimeoutOption d] ++ options2 →
     Forall (keeps timeout) options2 → timeout w = d).
Proof.
  unfold New. destruct (webman_setup.log _) as [l|]; [|done].
  intros [= <-]. simpl. split_and!; [done| |].
  - intros Hk. by rewrite foldl_keeps.
  - intros options1 options2 d -> Hk. rewrite foldl_app. simpl.
    by rewrite foldl_keeps.
Qed.

(** X14.  After [StartWebhook] the [Webman] knows its server:
    [WebhookAddr] returns the listen address, and the server has that
    address, the [Webman]'s timeout as grace period and one route, for the
    endpoint and POST only.  With a logger set the line "webhook server
    started at: <address>:" is logged before the server listens, so also
    when listening fails; the call returns the error of a failed listen
    and does not return while the server serves.  [ShutdownWebhook] then
    returns, having stopped the server with the [Webman]'s timeout, when
    the server serves, and never returns after a failed listen. *)
Theorem StartWebhook_then_lifecycle w endpoint listenAddr (fn : F) ListenAndServe :
  let '(w', logs, e) := StartWebhook w endpoint listenAddr fn ListenAndServe in
  WebhookAddr w' = Returned listenAddr ∧
  (∃ srv, (server <$> webhook w') = Some (Some srv) ∧
          Addr srv = listenAddr ∧ srv_Timeout srv = timeout w ∧
          route_path srv = endpoint ∧ route_methods srv = ["POST"]) ∧
  timeout w' = timeout w ∧ client w' = client w ∧ log w' = log w ∧
  (is_Some (log w) →
     logs = ["webhook server started at: " +:+ listenAddr +:+ ":"] ∧
     e = match ListenAndServe with
         | ListenFails err => Returned (Some err)
         | Serves => Blocked
         end ∧
     ShutdownWebhook w' = match ListenAndServe with
                          | ListenFails _ => Blocked
                          | Serves => Returned [timeout w]
                          end).
Proof.
  unfold StartWebhook, WebhookAddr, ShutdownWebhook. simpl.
  destruct (webman_setup.log w) as [l|]; simpl.
  - split; [done|]. split; [by eexists|]. do 3 (split; [done|]).
    intros _. by destruct ListenAndServe.
  - split; [done|]. split; [by eexists|]. do 3 (split; [done|]).
    by intros [? [=]].
Qed.

(** X15.  On a [Webman] that [New] returns from options that leave the
    webhook alone, so before any [StartWebhook], [ShutdownWebhook] does
    nothing, while [WebhookAddr] dereferences the nil webhook and
    panics. *)
Theorem webman_before_StartWebhook options w :
  Forall (keeps webhook) options →
  New options = inr w →
  ShutdownWebhook w = Returned [] ∧ WebhookAddr w = Panicked.
Proof.
  intros Hk. unfold New. destruct (webman_setup.log _) as [l|]; [|done].
  intros [= <-]. unfold ShutdownWebhook, WebhookAddr. simpl.
  by rewrite foldl_keeps.
Qed.

End webman_setup_extras.

(** ** Properties of the construction and lifecycle of the service *)

Section service_setup_extras.
Import webman_setup service_setup.
Context {P A F : Type}.
Implicit Types (s : service_setup.Service P A F)
  (options : list (service_setup.Option P A F)) (GetService : option P * error).

Lemma foldl_keeps_service {X} (f : service_setup.Service P A F → X) options s :
  Forall (service_setup.keeps f) options →
  f (foldl (λ s option, option s) s options) = f s.
Proof.
  intros Hk. revert s. induction Hk as [|o options Ho _ IH]; intros s; [done|].
  simpl. by rewrite IH, Ho.
Qed.

(** X16.  [New] of package service returns no service and the error
    "webhook configurations not set" when no option sets the webhook
    endpoint and address, and when the last option that sets them is a
    [WebhookOption] with an empty endpoint or an empty address, whatever
    the other options and [mesg.GetService] are. *)
Theorem service_New_needs_webhook_config options1 options2 GetService :
  Forall (service_setup.keeps webhookEndpoint) options2 →
  Forall (service_setup.keeps webhookAddr) options2 →
  (Forall (service_setup.keeps webhookEndpoint) options1 →
   Forall (service_setup.keeps webhookAddr) options1 →
   service_setup.New (options1 ++ options2) GetService =
     (None, Some "webhook configurations not set")) ∧
  (∀ endpoint addr,
     endpoint = EmptyString ∨ addr = EmptyString →
     service_setup.New (options1 ++ [WebhookOption endpoint addr] ++ options2) GetService =
       (None, Some "webhook configurations not set")).
Proof.
  intros He2 Ha2. split.
  - intros He1 Ha1. unfold service_setup.New.
    rewrite decide_True; [done|]. simpl. left.
    by rewrite (foldl_keeps_service webhookAddr) by by apply Forall_app.
  - intros endpoint addr Hempty. unfold service_setup.New.
    rewrite decide_True; [done|]. simpl.
    rewrite !foldl_app. simpl.
    rewrite (foldl_keeps_service webhookAddr), (foldl_keeps_service webhookEndpoint)
      by done.
    simpl. tauto.
Qed.

(** X17.  [New] of package service returns no service only together with
    the error "webhook configurations not set", so building its own
    [Webman] never fails for want of a logger.  A service it returns has
    the endpoint and address the options set, both non-empty, a logger
    with the prefix "service-webman: " and the standard flags that writes
    to the configured output, and an application. *)
Theorem service_New_result options GetService :
  match service_setup.New options GetService with
  | (None, err) =>
    err = Some "webhook configurations not set" ∧
    (webhookAddr (configured options) = EmptyString ∨
     webhookEndpoint (configured options) = EmptyString)
  | (Some s, err) =>
    webhookEndpoint s = webhookEndpoint (configured options) ∧
    webhookAddr s = webhookAddr (configured options) ∧
    webhookEndpoint s ≠ EmptyString ∧ webhookAddr s ≠ EmptyString ∧
    logOutput s = logOutput (configured options) ∧
    service_setup.log s =
      Some {| out := logOutput s; prefix := "service-webman: "; flag := 3 |} ∧
    is_Some (service_setup.webman s)
  end.
Proof.
  unfold service_setup.New. fold (configured options).
  case_decide as Hcfg; simpl in Hcfg; [done|].
  assert (webhookEndpoint (configured options) ≠ EmptyString ∧
          webhookAddr (configured options) ≠ EmptyString) as [He Ha] by tauto.
  destruct (service_setup.webman (configured options)) as [app|];
    destruct (mesgService (configured options)); simpl; split_and!; by eauto.
Qed.

(** X18.  When no option injects an application, the service [New]
    returns owns a [Webman] built with the service's logger: its timeout
    and that of its HTTP client are 10 seconds and no webhook is started.
    An injected application is kept as it is. *)
Theorem service_New_application options GetService s err :
  service_setup.New options GetService = (Some s, err) →
  (service_setup.webman (configured options) = None →
   ∃ w, service_setup.webman s = Some (Own w) ∧
        timeout w = (10 * 1000000000)%Z ∧
        client w = Some {| Timeout := (10 * 1000000000)%Z |} ∧
        webman_setup.log w = service_setup.log s ∧
        webhook w = None) ∧
  (∀ app, service_setup.webman (configured options) = Some app →
          service_setup.webman s = Some app).
Proof.
  unfold service_setup.New. fold (configured options).
  case_decide as Hcfg; [done|]. simpl.
  destruct (service_setup.webman (configured options)) as [app|];
    destruct (mesgService (configured options)); simpl; intros [= <- <-]; simpl;
    split; first [done | by intros app' [= <-] | intros _; by eexists].
Qed.

(** X19.  With a complete webhook configuration [New] always returns a
    service.  Without an injected provider it takes what
    [mesg.GetService] returns, the service and the error alike, so a
    failing [GetService] yields its error together with a service.  With
    an injected provider it keeps that provider, returns no error, and
    does not depend on [GetService]. *)
Theorem service_New_provider options GetService :
  webhookEndpoint (configured options) ≠ EmptyString →
  webhookAddr (configured options) ≠ EmptyString →
  (mesgService (configured options) = None →
   ∃ s, service_setup.New options GetService = (Some s, GetService.2) ∧
        mesgService s = GetService.1) ∧
  (∀ p, mesgService (configured options) = Some p →
        ∃ s, (∀ g, service_setup.New options g = (Some s, None)) ∧
             mesgService s = Some p).
Proof.
  intros He Ha. unfold service_setup.New. fold (configured options).
  rewrite decide_False by (simpl; tauto). simpl. split.
  - intros ->. destruct (service_setup.webman (configured options)); by eexists.
  - intros p Hp.
    destruct (service_setup.webman (configured options)) as [app|]; simpl.
    + eexists. split.
      * intros g. rewrite decide_False by tauto. rewrite Hp. reflexivity.
      * done.
    + eexists. split.
      * intros g. rewrite decide_False by tauto. rewrite Hp. reflexivity.
      * done.
Qed.

(** X20.  On a service whose provider and application are set, [Start]
    returns exactly when [ListenTasks] or [StartWebhook] returns an error,
    the application's [ShutdownWebhook] returns and the provider's [Close]
    returns.  It then returns one of those errors, never nil and never the
    error of [Close], having shut the webhook down and then closed the
    provider.  While neither collaborator returns an error it waits
    without closing anything, and when [ShutdownWebhook] never returns it
    never returns and the provider is not closed.  Its goroutines call
    [ListenTasks] for the tasks "execute" and "batchExecute" and
    [StartWebhook] for the configured endpoint and address.  With the
    service's own [Webman], after a failed listen and no error from
    [ListenTasks], the error is received but [Start] never returns. *)
Theorem Start_returns_first_error s ListenTasks_ret StartWebhook_ret
    ShutdownWebhook_end Close_ret choice :
  is_Some (mesgService s) → is_Some (service_setup.webman s) →
  (let '(started, closing, e) :=
     service_setup.Start s ListenTasks_ret StartWebhook_ret
       ShutdownWebhook_end Close_ret choice in
   started = [ListenTasks ["execute"; "batchExecute"];
              StartWebhook (webhookEndpoint s) (webhookAddr s)] ∧
   ((∃ err, e = Returned err) ↔
    (∃ m, ListenTasks_ret = Some (Some m) ∨ StartWebhook_ret = Some (Some m)) ∧
    (∃ u, ShutdownWebhook_end = Returned u) ∧ is_Some Close_ret) ∧
   (∀ err, e = Returned err →
      closing = [ShutdownWebhook; CloseProvider] ∧
      ∃ m, err = Some m ∧
           (ListenTasks_ret = Some (Some m) ∨ StartWebhook_ret = Some (Some m))) ∧
   ((∀ m, ListenTasks_ret ≠ Some (Some m)) →
    (∀ m, StartWebhook_ret ≠ Some (Some m)) → e = Blocked ∧ closing = []) ∧
   (ShutdownWebhook_end = Blocked → e = Blocked ∧ CloseProvider ∉ closing)) ∧
  (∀ (w : Webman F) (fn : F) m,
     service_setup.webman s = Some (Own w) →
     is_Some (webman_setup.log w) →
     (∀ m', ListenTasks_ret ≠ Some (Some m')) →
     let '(w', _, ret) :=
       webman_setup.StartWebhook w (webhookEndpoint s) (webhookAddr s) fn
         (ListenFails m) in
     ret = Returned (Some m) ∧
     service_setup.Start s ListenTasks_ret (Some (Some m))
       (ended (webman_setup.ShutdownWebhook w')) Close_ret choice =
       ([ListenTasks ["execute"; "batchExecute"];
         StartWebhook (webhookEndpoint s) (webhookAddr s)],
        [ShutdownWebhook], Blocked)).
Proof.
  intros [p Hp] [app Happ].
  assert (Hsends : ∀ (ret : option error) e,
    e ∈ match ret with Some (Some err) => [err] | _ => [] end ↔ ret = Some (Some e)).
  { intros [[err|]|] e; simpl.
    - rewrite list_elem_of_singleton. split; [by intros -> | by intros [= ->]].
    - split; [intros Hx; by apply not_elem_of_nil in Hx | done].
    - split; [intros Hx; by apply not_elem_of_nil in Hx | done]. }
  assert (Hpick : ∀ (l : list string) c, l ≠ [] → is_Some (l !! (c mod length l))).
  { intros l c Hl. apply lookup_lt_is_Some_2, Nat.mod_upper_bound.
    by destruct l. }
  split.
  - unfold service_setup.Start, listenTasks, startWebhook, Close.
    rewrite Hp, Happ.
    set (waiting := _ ++ _).
    assert (Hin : ∀ e, e ∈ waiting ↔
              ListenTasks_ret = Some (Some e) ∨ StartWebhook_ret = Some (Some e)).
    { intros e. unfold waiting. by rewrite elem_of_app, !Hsends. }
    destruct (waiting !! (choice mod length waiting)) as [e|] eqn:Hpicked.
    + assert (He : e ∈ waiting) by (by eapply list_elem_of_lookup_2).
      apply Hin in He.
      destruct ShutdownWebhook_end as [u| |], Close_ret as [cerr|]; simpl;
        (split; [done|]); split_and!.
      all: try (split; [by intros [? [=]] | by intros (_ & [? [=]] & _)]).
      all: try (split; [by intros [? [=]] | by intros (_ & _ & [? [=]])]).
      all: try (intros err [=]; fail).
      all: try (intros H1 H2; destruct He as [He|He];
                  [by destruct (H1 e) | by destruct (H2 e)]).
      all: try (intros [=]; fail).
      all: try (intros _; split; [done|];
                  rewrite list_elem_of_singleton || rewrite elem_of_nil; done).
      * split; [intros _ | by eexists]. split_and!; by eauto.
      * intros err [= <-]. split; [done|]. by exists e.
    + assert (Hnil : waiting = []).
      { destruct (decide (waiting = [])) as [|Hne]; [done|].
        destruct (Hpick waiting choice Hne) as [x Hx]. congruence. }
      simpl. split; [done|]. split_and!.
      * split; [by intros [? [=]]|]. intros ([m Hm] & _).
        apply Hin in Hm. rewrite Hnil in Hm. by apply not_elem_of_nil in Hm.
      * by intros err [=].
      * done.
      * intros _. split; [done|]. apply not_elem_of_nil.
  - intros w fn m Hown [l Hl] Hlisten.
    unfold webman_setup.StartWebhook. rewrite Hl. simpl. split; [done|].
    unfold service_setup.Start, listenTasks, startWebhook, Close.
    rewrite Hp, Hown. unfold webman_setup.ShutdownWebhook. simpl.
    assert (Hnone : match ListenTasks_ret with
                    | Some (Some err) => [err]
                    | _ => []
                    end = []).
    { destruct ListenTasks_ret as [[err|]|]; [by destruct (Hlisten err) | done..]. }
    rewrite Hnone, app_nil_l. change (length [m]) with 1. by rewrite Nat.mod_1_r.
Qed.

End service_setup_extras.

(** ** The further properties at sample inputs *)

Import observe test_setup.

Lemma batch_undecodable_input_witness :
  ∃ es,
    batchExecuteHandler test_service
      (task (inl "unexpected end of JSON input")) [] = Some (es, []) ∧
    calls_of es = [] ∧ received_of es = [] ∧
    replies_of es =
      [("error", ErrorData {| err_Message :=
          "err while decoding batch input data: unexpected end of JSON input" |})].
Proof.
  apply (batch_undecodable_input test_service
           (task (inl "unexpected end of JSON input")) []
           "unexpected end of JSON input").
  reflexivity.
Defined.

Lemma batch_last_write_wins_witness :
  ∃ es gs hresp,
    batchExecuteHandler ok_then_refused
      (task (inr {| breq_Batch := [to_a; to_a] |})) [] = Some (es, gs) ∧
    replies_of es = [("batch", BatchData {| bresp_Batch := hresp |})] ∧
    received_of es ≡ₚ outcomes ok_then_refused [to_a; to_a] ∧
    ∀ u,
      Successes hresp !! u =
        success_entry <$> last_for u (successes_of (received_of es)) ∧
      Errors hresp !! u =
        last_for u (errors_of (received_of es)) ≫= error_entry.
Proof.
  apply (batch_last_write_wins ok_then_refused _ []
           {| breq_Batch := [to_a; to_a] |}).
  - reflexivity.
  - sample_calls_return.
Defined.

Lemma batch_distinct_urls_any_schedule_witness :
  ∃ es gs,
    batchExecuteHandler ok_then_refused
      (task (inr {| breq_Batch := [to_a; to_b] |})) [1] = Some (es, gs) ∧
    replies_of es =
      [("batch", BatchData {| bresp_Batch :=
          collect (outcomes ok_then_refused [to_a; to_b]) |})].
Proof.
  apply (batch_distinct_urls_any_schedule ok_then_refused _ [1]
           {| breq_Batch := [to_a; to_b] |}).
  - reflexivity.
  - sample_calls_return.
  - simpl. repeat constructor; set_solver.
Defined.

Lemma batch_returns_iff_calls_return_witness :
  (is_Some (batchExecuteHandler ok_then_silent
              (task (inr {| breq_Batch := [to_a; to_b] |})) [1]) ↔
   all_return ok_then_silent [to_a; to_b]) ∧
  (¬ all_return ok_then_silent [to_a; to_b] →
   batchExecuteHandler ok_then_silent
     (task (inr {| breq_Batch := [to_a; to_b] |})) [1] = None).
Proof.
  apply (batch_returns_iff_calls_return ok_then_silent _ [1]
           {| breq_Batch := [to_a; to_b] |}).
  reflexivity.
Defined.

Lemma batch_one_call_per_request_witness :
  calls_of [Call "http://a" VNil; Call "http://b" VNil;
            Recv (outcome "http://b" answer_refused);
            Recv (outcome "http://a" answer_ok);
            Reply "batch" (BatchData {| bresp_Batch :=
              collect [outcome "http://b" answer_refused;
                       outcome "http://a" answer_ok] |})] ≡ₚ
    [("http://a", VNil); ("http://b", VNil)].
Proof.
  apply (batch_one_call_per_request ok_then_refused
           (task (inr {| breq_Batch := [to_a; to_b] |})) [1]
           {| breq_Batch := [to_a; to_b] |} _ [Return; Return]).
  - reflexivity.
  - reflexivity.
Defined.

Lemma execute_one_call_witness :
  (executeHandler ok_then_silent (task (inr to_a)) = None ↔
   Post (service.webman ok_then_silent) 0 "http://a" VNil = None) ∧
  ∀ es, executeHandler ok_then_silent (task (inr to_a)) = Some es →
    calls_of es = [("http://a", VNil)] ∧
    (∃ res, Post (service.webman ok_then_silent) 0 "http://a" VNil = Some res ∧
            received_of es = [outcome "http://a" res]) ∧
    length (replies_of es) = 1.
Proof.
  apply (execute_one_call ok_then_silent (task (inr to_a)) to_a).
  reflexivity.
Defined.

Lemma reply_failure_is_logged_witness :
  ∃ es kind data,
    executeHandler test_service (refused_task (inr to_a)) = Some es ∧
    replies_of es = [(kind, data)] ∧
    logs_of es = ["error while reply: closed connection"].
Proof.
  edestruct (proj1 (reply_failure_is_logged test_service)
               (refused_task (inr to_a))) as (kind & data & Hr & Hl);
    [reflexivity|].
  eexists _, kind, data. split; [reflexivity|]. split; [exact Hr | exact Hl].
Defined.

Lemma reply_delivery_changes_nothing_else_witness :
  replies_of <$> executeHandler test_service (task (inr to_a)) =
  replies_of <$> executeHandler test_service (refused_task (inr to_a)).
Proof.
  apply (proj1 (reply_delivery_changes_nothing_else test_service)
           (task (inr to_a)) (refused_task (inr to_a))).
  reflexivity.
Defined.

Lemma batch_constant_relay_witness :
  ∃ es gs hresp,
    batchExecuteHandler test_service
      (task (inr {| breq_Batch := [to_a; to_b; to_a] |})) [2; 1] = Some (es, gs) ∧
    replies_of es = [("batch", BatchData {| bresp_Batch := hresp |})] ∧
    Errors hresp = ∅ ∧
    Successes hresp =
      gset_to_gmap {| ok_StatusCode := "0"; ok_Body := VNil |}
        (distinct_urls [to_a; to_b; to_a]) ∧
    size (Successes hresp) = size (distinct_urls [to_a; to_b; to_a]).
Proof.
  apply (batch_constant_relay test_service _ [2; 1]
           {| breq_Batch := [to_a; to_b; to_a] |} 0%Z VNil).
  - reflexivity.
  - intros i h _. reflexivity.
Defined.

Lemma Post_error_cases_witness :
  ∃ out, webman.Post not_found 0 "http://a" (VObject []) =
           Some (404%Z, out, None) ∧
  (webman.Post not_found 0 "http://a" VNil = Some (0%Z, VNil, Some "json: unsupported value")).
Proof.
  exists (VObject []). split; [reflexivity|].
  apply (proj1 (Post_error_cases (H := sample_Library) not_found 0 "http://a" VNil)
           "json: unsupported value").
  reflexivity.
Defined.

Lemma webman_New_needs_logger_witness :
  webman_setup.New (F := unit) ([] ++ [webman_setup.TimeoutOption 5]) =
    inl "no logger set" ∧
  webman_setup.New (F := unit)
    ([] ++ [webman_setup.LoggerOption None] ++ [webman_setup.TimeoutOption 5]) =
    inl "no logger set" ∧
  ∃ w, webman_setup.New (F := unit)
         ([] ++ [webman_setup.LoggerOption (Some logger)] ++
          [webman_setup.TimeoutOption 5]) = inr w ∧
       webman_setup.log w = Some logger.
Proof.
  assert (Hk : Forall (webman_setup.keeps (F := unit) webman_setup.log)
                 [webman_setup.TimeoutOption 5])
    by (repeat constructor).
  destruct (webman_New_needs_logger (F := unit) [] [webman_setup.TimeoutOption 5] Hk)
    as (Hnone & Hnil & Hsome).
  split; [apply Hnone; constructor|]. split; [exact Hnil|]. apply Hsome.
Defined.

Lemma webman_New_timeout_witness :
  ∃ w, webman_setup.New (F := unit) [webman_setup.LoggerOption (Some logger)] = inr w ∧
       webman_setup.client w = Some {| webman_setup.Timeout := 10000000000 |} ∧
       webman_setup.timeout w = 10000000000%Z.
Proof.
  edestruct (webman_New_timeout (F := unit) [webman_setup.LoggerOption (Some logger)])
    as (Hc & Hd & _); [reflexivity|].
  eexists. split; [reflexivity|].
  split; [exact Hc|]. apply Hd. repeat constructor.
Defined.

Lemma StartWebhook_then_lifecycle_witness :
  ∃ w, webman_setup.New (F := unit) [webman_setup.LoggerOption (Some logger)] = inr w ∧
  let '(w', logs, e) :=
    webman_setup.StartWebhook w "/endpoint" ":4000" tt
      (webman_setup.ListenFails "address already in use") in
  webman_setup.WebhookAddr w' = webman_setup.Returned ":4000" ∧
  logs = ["webhook server started at: :4000:"] ∧
  e = webman_setup.Returned (Some "address already in use") ∧
  webman_setup.ShutdownWebhook w' = webman_setup.Blocked.
Proof.
  eexists. split; [reflexivity|].
  pose proof (StartWebhook_then_lifecycle (F := unit)
    {| webman_setup.timeout := 10000000000;
       webman_setup.client := Some {| webman_setup.Timeout := 10000000000 |};
       webman_setup.webhook := None; webman_setup.log := Some logger |}
    "/endpoint" ":4000" tt (webman_setup.ListenFails "address already in use")) as Hs.
  simpl in Hs. destruct Hs as (Ha & _ & _ & _ & _ & Hl).
  destruct (Hl (ex_intro _ logger eq_refl)) as (Hlogs & He & Hstop).
  split; [exact Ha|]. split; [exact Hlogs|]. split; [exact He | exact Hstop].
Defined.

Lemma webman_before_StartWebhook_witness :
  ∃ w, webman_setup.New (F := unit) [webman_setup.LoggerOption (Some logger)] = inr w ∧
       webman_setup.ShutdownWebhook w = webman_setup.Returned [] ∧
       webman_setup.WebhookAddr w = webman_setup.Panicked.
Proof.
  eexists. split; [reflexivity|].
  apply (webman_before_StartWebhook (F := unit) [webman_setup.LoggerOption (Some logger)]);
    [repeat constructor | reflexivity].
Defined.

Lemma service_New_needs_webhook_config_witness :
  service_setup.New (P := testServiceProvider) (A := testWebman) (F := unit)
    ([] ++ [service_setup.LogOutputOption webman_setup.ioutil_Discard]) (None, None) =
    (None, Some "webhook configurations not set") ∧
  service_setup.New (P := testServiceProvider) (A := testWebman) (F := unit)
    ([] ++ [service_setup.WebhookOption "/webhook" EmptyString] ++
     [service_setup.LogOutputOption webman_setup.ioutil_Discard]) (None, None) =
    (None, Some "webhook configurations not set").
Proof.
  destruct (service_New_needs_webhook_config
              (P := testServiceProvider) (A := testWebman) (F := unit)
              [] [service_setup.LogOutputOption webman_setup.ioutil_Discard] (None, None))
    as [Hnone Hempty]; [repeat constructor | repeat constructor |].
  split; [apply Hnone; constructor|]. apply Hempty. by right.
Defined.

Lemma service_New_application_witness :
  ∃ s w,
    service_setup.New main_options (Some Build_testServiceProvider, None) = (Some s, None) ∧
    service_setup.webman s = Some (service_setup.Own w) ∧
    webman_setup.timeout w = 10000000000%Z ∧
    webman_setup.log w = service_setup.log s.
Proof.
  edestruct (service_New_application main_options
               (Some Build_testServiceProvider, None)) as [Hown _]; [reflexivity|].
  destruct (Hown eq_refl) as (w & Hw & Ht & _ & Hl & _).
  eexists _, w. split; [reflexivity|]. split; [exact Hw|]. split; [exact Ht | exact Hl].
Defined.

Lemma service_New_provider_witness :
  (∃ s, service_setup.New main_options (None, Some "mesg: endpoint not set") =
          (Some s, Some "mesg: endpoint not set") ∧
        service_setup.mesgService s = None) ∧
  (∃ s, (∀ g, service_setup.New test_options g = (Some s, None)) ∧
        service_setup.mesgService s = Some Build_testServiceProvider).
Proof.
  split.
  - apply (proj1 (service_New_provider main_options
                    (None, Some "mesg: endpoint not set") ltac:(done) ltac:(done))).
    reflexivity.
  - apply (proj2 (service_New_provider test_options (None, None)
                    ltac:(done) ltac:(done)) Build_testServiceProvider).
    reflexivity.
Defined.

Lemma Start_returns_first_error_witness :
  service_setup.Start built (Some (Some "closed connection")) None
    (webman_setup.Returned tt) (Some (Some "already closed")) 0 =
    ([service_setup.ListenTasks ["execute"; "batchExecute"];
      service_setup.StartWebhook "test" "test"],
     [service_setup.ShutdownWebhook; service_setup.CloseProvider],
     webman_setup.Returned (Some "closed connection")) ∧
  service_setup.Start built (Some None) None
    (webman_setup.Returned tt) (Some None) 0 =
    ([service_setup.ListenTasks ["execute"; "batchExecute"];
      service_setup.StartWebhook "test" "test"], [], webman_setup.Blocked) ∧
  service_setup.Start own_service None (Some (Some "address already in use"))
    (service_setup.ended
       (webman_setup.ShutdownWebhook
          (webman_setup.StartWebhook own_webman "/webhook" ":4000" tt
             (webman_setup.ListenFails "address already in use")).1.1))
    (Some None) 0 =
    ([service_setup.ListenTasks ["execute"; "batchExecute"];
      service_setup.StartWebhook "/webhook" ":4000"],
     [service_setup.ShutdownWebhook], webman_setup.Blocked).
Proof.
  split; [|split].
  - pose proof (proj1 (Start_returns_first_error built
                  (Some (Some "closed connection")) None
                  (webman_setup.Returned tt) (Some (Some "already closed")) 0
                  ltac:(by eexists) ltac:(by eexists))) as Hs.
    simpl in Hs. destruct Hs as (Hstarted & _ & Hret & _).
    destruct (Hret _ eq_refl) as [Hclosing _]. reflexivity.
  - pose proof (proj1 (Start_returns_first_error built (Some None) None
                  (webman_setup.Returned tt) (Some None) 0
                  ltac:(by eexists) ltac:(by eexists))) as Hs.
    simpl in Hs. destruct Hs as (_ & _ & _ & Hwait & _).
    destruct Hwait as [He Hc]; [done | done |]. reflexivity.
  - pose proof (proj2 (Start_returns_first_error own_service None
                  (Some (Some "address already in use"))
                  (webman_setup.Returned tt) (Some None) 0
                  ltac:(by eexists) ltac:(by eexists))
                  own_webman tt "address already in use" eq_refl
                  ltac:(by eexists) ltac:(done)) as Hs.
    simpl in Hs. destruct Hs as [_ Hs]. exact Hs.
Defined.

(** C3 as stated fails: the body [{} not json] is not a valid JSON text,
    but the decoder reads its first value, the empty object, and leaves
    the rest unread; so [webhookHandler] returns nil and emits an event
    with that object, and the HTTP answer is 202 with nothing written, not
    400. *)
Lemma webhook_accepts_text_after_value :
  json.valid "{} not json" = false ∧
  webhookHandler (H := json.stream_Library) test_service
    {| webman.req_Body := "{} not json" |} =
    (None,
     [Emit "onRequest"
        {| Date := 1530000000; ID := "6ba7b810-9dad-11d1-80b4-00c04fd430c8";
           wh_Body := VObject [] |}]) ∧
  (webman.handler (H := json.stream_Library)
     (webhookHandler (H := json.stream_Library) test_service)
     (NewResponseWriter None) {| webman.req_Body := "{} not json" |}).1.1 =
    {| webman.Header := ∅; webman.status := Some 202%Z;
       webman.written := EmptyString; webman.Write_err := None |} ∧
  ¬ (∀ req : webman.Request,
       json.valid (webman.req_Body req) = false →
       (webhookHandler (H := json.stream_Library) test_service req).1 =
         Some "json data payload expected" ∧
       webman.status
         (webman.handler (H := json.stream_Library)
            (webhookHandler (H := json.stream_Library) test_service)
            (NewResponseWriter None) req).1.1 = Some 400%Z).
Proof.
  split; [reflexivity|]. split; [reflexivity|]. split; [reflexivity|].
  intros Hclaim.
  destruct (Hclaim {| webman.req_Body := "{} not json" |} eq_refl) as [Herr _].
  discriminate Herr.
Qed.
